(** * Text-to-table reconstruction and CSV export of SpreadsheetOCR.js

    A shallow embedding of the text processing of
    [src/app/components/SpreadsheetOCR.js]: the body of [processImage] from
    the point where the recognised text is available (lines 52-86) and
    [exportToCSV] (lines 101-121), together with the parts of the ECMAScript
    built-ins these two functions rely on. *)

From Stdlib Require Import String Ascii.
From Stdlib Require Import List NArith ZArith Bool Lia Permutation.
Import ListNotations.
Local Open Scope N_scope.
Local Open Scope list_scope.

(** ** Strings *)

(** An ECMAScript string is a finite sequence of UTF-16 code units. *)
Definition jsstring := list N.

(** Reading a literal: every character of the literal is one code unit. *)
Definition js (s : string) : jsstring :=
  map N_of_ascii (list_ascii_of_string s).

Definition LF : N := 10.
Definition COMMA : N := 44.
Definition DQUOTE : N := 34.
Definition BACKSLASH : N := 92.
Definition UNDERSCORE : N := 95.

Fixpoint jsstring_eqb (s t : jsstring) : bool :=
  match s, t with
  | [], [] => true
  | c :: s', d :: t' => (c =? d) && jsstring_eqb s' t'
  | _, _ => false
  end.

(** The truthiness of a string: [Boolean(s)] is [false] only for [''] . *)
Definition truthy (s : jsstring) : bool :=
  match s with [] => false | _ :: _ => true end.

(** The code units matched by the regular expression class [\s] and removed
    by [String.prototype.trim]: WhiteSpace and LineTerminator of ECMA-262. *)
Definition isWhiteSpace (c : N) : bool :=
  (c =? 9) || (c =? 10) || (c =? 11) || (c =? 12) || (c =? 13) ||
  (c =? 32) || (c =? 160) || (c =? 5760) ||
  ((8192 <=? c) && (c <=? 8202)) ||
  (c =? 8232) || (c =? 8233) || (c =? 8239) || (c =? 8287) ||
  (c =? 12288) || (c =? 65279).

(** [starts_ws s]: the first code unit of [s] exists and is white space. *)
Definition starts_ws (s : jsstring) : bool :=
  match s with [] => false | c :: _ => isWhiteSpace c end.

(** Prepending a code unit to the first segment of a split. *)
Definition cons_first (c : N) (segs : list jsstring) : list jsstring :=
  match segs with
  | [] => [[c]]
  | seg :: rest => (c :: seg) :: rest
  end.

(** [s.split(sep)] for a separator of one code unit, as in
    [text.split('\n')]: the empty string gives [['']], and every occurrence
    of the separator closes a segment. *)
Fixpoint split_on (sep : N) (s : jsstring) : list jsstring :=
  match s with
  | [] => [[]]
  | c :: s' =>
      if c =? sep then [] :: split_on sep s'
      else cons_first c (split_on sep s')
  end.

(** [s.split(/\s+/)]: the separators are the maximal runs of white space (the
    quantifier is greedy), so only the last code unit of a run closes a
    segment; a leading run leaves [''] in front, a trailing run leaves ['']
    at the end, and the empty string gives [['']]. *)
Fixpoint split_ws (s : jsstring) : list jsstring :=
  match s with
  | [] => [[]]
  | c :: s' =>
      if isWhiteSpace c then
        if starts_ws s' then split_ws s' else [] :: split_ws s'
      else cons_first c (split_ws s')
  end.

Fixpoint trimStart (s : jsstring) : jsstring :=
  match s with
  | [] => []
  | c :: s' => if isWhiteSpace c then trimStart s' else s
  end.

(** [s.trim()] *)
Definition trim (s : jsstring) : jsstring :=
  rev (trimStart (rev (trimStart s))).

(** [s.replace(/\s+/g, '_')]: every maximal run of white space becomes one
    underscore. *)
Fixpoint replace_ws (s : jsstring) : jsstring :=
  match s with
  | [] => []
  | c :: s' =>
      if isWhiteSpace c then
        if starts_ws s' then replace_ws s' else UNDERSCORE :: replace_ws s'
      else c :: replace_ws s'
  end.

(** [a.join(sep)] on an array of strings. *)
Fixpoint join (sep : jsstring) (a : list jsstring) : jsstring :=
  match a with
  | [] => []
  | x :: rest =>
      match rest with
      | [] => x
      | _ :: _ => x ++ sep ++ join sep rest
      end
  end.

(** [String.prototype.toLowerCase] restricted to the ASCII letters, the case
    mapping of every string whose code units are below 128 (the recogniser is
    configured with an ASCII white list, source lines 38-41). *)
Definition toLowerCase_ascii (s : jsstring) : jsstring :=
  map (fun c => if (65 <=? c) && (c <=? 90) then c + 32 else c) s.

(** ** Exceptions *)

Inductive exn : Type := TypeError.

Inductive completion (A : Type) : Type :=
| Normal (a : A)
| Throw (e : exn).
Arguments Normal {A} a.
Arguments Throw {A} e.

(** ** Ordinary objects with string values *)

(** The own properties of an object created by [{}] whose values are strings,
    in the order in which the properties were created. *)
Definition record := list (jsstring * jsstring).

Definition proto_key : jsstring := js "__proto__".

Fixpoint own_lookup (row : record) (k : jsstring) : option jsstring :=
  match row with
  | [] => None
  | (k', v) :: row' => if jsstring_eqb k' k then Some v else own_lookup row' k
  end.

Fixpoint own_update (row : record) (k v : jsstring) : record :=
  match row with
  | [] => []
  | (k', v') :: row' =>
      if jsstring_eqb k' k then (k', v) :: row'
      else (k', v') :: own_update row' k v
  end.

(** [row[k] = v] for a string [v].  The key [__proto__] reaches the setter
    inherited from [Object.prototype], which ignores a value that is neither
    an object nor [null] (ECMA-262, set Object.prototype.__proto__), so no
    property is created.  Any other key overwrites the own property when
    there is one and creates it otherwise (the data properties of
    [Object.prototype] are writable). *)
Definition Object_set (row : record) (k v : jsstring) : record :=
  if jsstring_eqb k proto_key then row
  else match own_lookup row k with
       | Some _ => own_update row k v
       | None => row ++ [(k, v)]
       end.

Definition isDigit (c : N) : bool := (48 <=? c) && (c <=? 57).

Definition decimal_value (s : jsstring) : N :=
  fold_left (fun acc c => acc * 10 + (c - 48)) s 0.

(** An array index is a canonical numeric string (decimal digits without a
    superfluous leading zero) whose value is at most 2^32 - 2. *)
Definition array_index (k : jsstring) : option N :=
  match k with
  | [] => None
  | c :: rest =>
      if forallb isDigit k && (negb (c =? 48) || negb (truthy rest))
         && (decimal_value k <=? 4294967294)
      then Some (decimal_value k) else None
  end.

Definition is_array_index (k : jsstring) : bool :=
  match array_index k with Some _ => true | None => false end.

Fixpoint insert_index (n : N) (k : jsstring) (l : list (N * jsstring))
    : list (N * jsstring) :=
  match l with
  | [] => [(n, k)]
  | (m, k') :: l' =>
      if n <=? m then (n, k) :: l else (m, k') :: insert_index n k l'
  end.

(** The keys that are array indices, in ascending order of the index. *)
Fixpoint index_keys (keys : list jsstring) : list (N * jsstring) :=
  match keys with
  | [] => []
  | k :: keys' =>
      match array_index k with
      | Some n => insert_index n k (index_keys keys')
      | None => index_keys keys'
      end
  end.

(** OrdinaryOwnPropertyKeys: the array indices in ascending numeric order,
    then the other string keys in order of property creation. *)
Definition OrdinaryOwnPropertyKeys (row : record) : list jsstring :=
  map snd (index_keys (map fst row))
  ++ filter (fun k => negb (is_array_index k)) (map fst row).

(** [Object.keys(row)]: every property of a record is enumerable. *)
Definition Object_keys (row : record) : list jsstring :=
  OrdinaryOwnPropertyKeys row.

(** The value of an own property. *)
Definition own_value (row : record) (k : jsstring) : jsstring :=
  match own_lookup row k with Some v => v | None => [] end.

(** [Object.values(row)]: the values of the own keys, in the order of the
    keys (EnumerableOwnProperties). *)
Definition Object_values (row : record) : list jsstring :=
  map (own_value row) (Object_keys row).

(** The values a property read [row[k]] can produce. *)
Inductive jsvalue : Type :=
| JUndefined
| JString (s : jsstring)
| JFunction
| JObjectPrototype.

(** The methods every ordinary object inherits from [Object.prototype]. *)
Definition Object_prototype_methods : list jsstring :=
  map js ["constructor"; "hasOwnProperty"; "isPrototypeOf";
          "propertyIsEnumerable"; "toLocaleString"; "toString"; "valueOf";
          "__defineGetter__"; "__defineSetter__"; "__lookupGetter__";
          "__lookupSetter__"]%string.

(** [row[k]]: the own property, else what [Object.prototype] has under that
    name, else [undefined]. *)
Definition Object_get (row : record) (k : jsstring) : jsvalue :=
  match own_lookup row k with
  | Some v => JString v
  | None =>
      if jsstring_eqb k proto_key then JObjectPrototype
      else if existsb (jsstring_eqb k) Object_prototype_methods then JFunction
      else JUndefined
  end.

(** ** JSON.stringify on the values the exporter meets *)

Definition hex_digit (d : N) : N := if d <? 10 then 48 + d else 87 + d.

(** The escape [\uXXXX] with four lower-case hexadecimal digits. *)
Definition unicode_escape (c : N) : jsstring :=
  [BACKSLASH; 117;
   hex_digit ((c / 4096) mod 16); hex_digit ((c / 256) mod 16);
   hex_digit ((c / 16) mod 16); hex_digit (c mod 16)].

Definition is_high_surrogate (c : N) : bool := (55296 <=? c) && (c <=? 56319).
Definition is_low_surrogate (c : N) : bool := (56320 <=? c) && (c <=? 57343).

(** The escape of one code unit that is not part of a surrogate pair
    (QuoteJSONString, table of single-character escapes). *)
Definition escape_unit (c : N) : jsstring :=
  if c =? 8 then [BACKSLASH; 98]
  else if c =? 9 then [BACKSLASH; 116]
  else if c =? 10 then [BACKSLASH; 110]
  else if c =? 12 then [BACKSLASH; 102]
  else if c =? 13 then [BACKSLASH; 114]
  else if c =? DQUOTE then [BACKSLASH; DQUOTE]
  else if c =? BACKSLASH then [BACKSLASH; BACKSLASH]
  else if c <? 32 then unicode_escape c
  else if is_high_surrogate c || is_low_surrogate c then unicode_escape c
  else [c].

(** The characters between the quotes of QuoteJSONString: a high surrogate
    followed by a low surrogate is one code point and is copied, every other
    code unit is escaped on its own. *)
Fixpoint quote_body (s : jsstring) : jsstring :=
  match s with
  | [] => []
  | c :: rest =>
      match rest with
      | d :: rest' =>
          if is_high_surrogate c && is_low_surrogate d
          then c :: d :: quote_body rest'
          else escape_unit c ++ quote_body rest
      | [] => escape_unit c
      end
  end.

(** [JSON.stringify(s)] for a string [s]. *)
Definition QuoteJSONString (s : jsstring) : jsstring :=
  DQUOTE :: quote_body s ++ [DQUOTE].

(** [v || ''] *)
Definition or_empty (v : jsvalue) : jsvalue :=
  match v with
  | JUndefined => JString []
  | JString [] => JString []
  | _ => v
  end.

(** [JSON.stringify(v)]: a string is quoted, a function gives [undefined]
    ([None]) and [Object.prototype], which has no enumerable property of its
    own, gives [{}]. *)
Definition JSON_stringify (v : jsvalue) : option jsstring :=
  match v with
  | JUndefined => None
  | JString s => Some (QuoteJSONString s)
  | JFunction => None
  | JObjectPrototype => Some (js "{}")
  end.

(** An element of an array under [join]: [undefined] is written as ['']. *)
Definition join_element (e : option jsstring) : jsstring :=
  match e with Some s => s | None => [] end.

(** ** processImage, from the recognised text on (lines 52-86) *)

(** Line 52: [text.split('\n').filter((line) => line.trim())] *)
Definition split_lines (text : jsstring) : list jsstring :=
  filter (fun line => truthy (trim line)) (split_on LF text).

(** Line 67: [line.split(/\s+/).filter(Boolean)] *)
Definition tokens (line : jsstring) : list jsstring :=
  filter truthy (split_ws line).

(** Lines 68-74: the callback of [map], one record per line; the accumulator
    of [forEach] carries the index and the row under construction. *)
Definition set_column (values : list jsstring)
    (acc : nat * record) (header : jsstring) : nat * record :=
  let (index, row) := acc in
  (S index, Object_set row header (nth index values [])).

Definition build_row (headers : list jsstring) (line : jsstring) : record :=
  let values := tokens line in
  snd (fold_left (set_column values) headers (0%nat, [])).

(** Line 76: [Object.values(row).some((value) => value)] *)
Definition some_value (row : record) : bool :=
  existsb truthy (Object_values row).

Section ProcessImage.

(** [String.prototype.toLowerCase], whose Unicode tables are not part of
    the repository. *)
Variable toLowerCase : jsstring -> jsstring.

(** Lines 57-58: the callback of the header [map]. *)
Definition normalize_header (header : jsstring) : jsstring :=
  replace_ws (toLowerCase (trim header)).

(** Lines 55-60, for a first line that exists. *)
Definition extract_headers (line0 : jsstring) : list jsstring :=
  filter truthy (map normalize_header (split_ws line0)).

(** Lines 55-60: [lines[0]] is [undefined] when there is no line, and
    calling [split] on it throws a TypeError. *)
Definition headers_of (lines : list jsstring) : completion (list jsstring) :=
  match lines with
  | [] => Throw TypeError
  | line0 :: _ => Normal (extract_headers line0)
  end.

(** Lines 63-76 *)
Definition process_rows (headers : list jsstring) (lines : list jsstring)
    : list record :=
  filter some_value
    (map (build_row headers)
       (filter (fun line => truthy (trim line)) (skipn 1 lines))).

(** Lines 52-76: the value of [processedData], or the exception raised on
    the way. *)
Definition processText (text : jsstring) : completion (list record) :=
  let lines := split_lines text in
  match headers_of lines with
  | Throw e => Throw e
  | Normal headers => Normal (process_rows headers lines)
  end.

End ProcessImage.

(** The state of the component (lines 7-10). *)
Record State : Type := mkState {
  isProcessing : bool;
  error : jsstring;
  extractedData : option (list record);
  progress : N
}.

Definition initial_state : State := mkState false [] None 0.

Definition error_message : jsstring :=
  js "Error processing image. Please try again.".

(** [processImage] once the recogniser has delivered [text]: the state
    updates of lines 14-15, then the [try] block from line 52 with its
    [catch] (lines 78-86). *)
Definition processImage (toLowerCase : jsstring -> jsstring)
    (text : jsstring) (st : State) : State :=
  match processText toLowerCase text with
  | Normal processedData =>
      mkState false [] (Some processedData) 0
  | Throw _ =>
      mkState false error_message (extractedData st) 0
  end.

(** ** exportToCSV (lines 101-121) *)

(** What the download link is given. *)
Record download : Type := mkDownload {
  content : jsstring;
  mime_type : jsstring;
  file_name : jsstring
}.

Inductive export_outcome : Type :=
| Returned
| Downloaded (d : download)
| Threw (e : exn).

(** Line 109: [JSON.stringify(row[header] || '')], as [join] writes it. *)
Definition csv_field (row : record) (header : jsstring) : jsstring :=
  join_element (JSON_stringify (or_empty (Object_get row header))).

(** Lines 107-111 *)
Definition csv_row (headers : list jsstring) (row : record) : jsstring :=
  join [COMMA] (map (csv_field row) headers).

(** Lines 105-112 *)
Definition csvContent (headers : list jsstring) (data : list record)
    : jsstring :=
  join [LF] (join [COMMA] headers :: map (csv_row headers) data).

Definition exportToCSV (data : option (list record)) : export_outcome :=
  match data with
  | None => Returned
  | Some rows =>
      match rows with
      | [] => Threw TypeError
      | row0 :: _ =>
          let headers := Object_keys row0 in
          Downloaded
            (mkDownload (csvContent headers rows)
               (js "text/csv;charset=utf-8;") (js "spreadsheet_data.csv"))
      end
  end.

(** ** handleFileUpload (lines 89-99) *)

(** [s.startsWith(sub)] *)
Fixpoint starts_with (s sub : jsstring) : bool :=
  match sub, s with
  | [], _ => true
  | _ :: _, [] => false
  | c :: sub', d :: s' => (c =? d) && starts_with s' sub'
  end.

(** [s.includes(sub)]: [sub] starts at some position of [s]. *)
Fixpoint includes (s sub : jsstring) : bool :=
  starts_with s sub
  || match s with
     | [] => false
     | _ :: s' => includes s' sub
     end.

(** What the handler reads of a chosen file. *)
Record File : Type := mkFile { file_type : jsstring }.

Definition upload_error_message : jsstring :=
  js "Please upload an image file".

(** The handler, given [event.target.files[0]] ([None] for [undefined]):
    the state it leaves and the file it hands to [processImage], if any. *)
Definition handleFileUpload (file : option File) (st : State)
    : State * option File :=
  match file with
  | None => (st, None)
  | Some f =>
      if includes (file_type f) (js "image/") then (st, Some f)
      else (mkState (isProcessing st) upload_error_message
              (extractedData st) (progress st), None)
  end.

(** ** The remaining paths of processImage *)

(** Lines 14-15: what [processImage] sets before its first [await]. *)
Definition processImage_start (st : State) : State :=
  mkState true [] (extractedData st) (progress st).

(** How the awaited part of the [try] block (lines 18-49) ends: with the
    recognised text, or with an exception. *)
Inductive recognition : Type :=
| Recognized (text : jsstring)
| Rejected.

(** The state updates after the awaited part: lines 52-80 on a recognised
    text, the [catch] of lines 81-86 otherwise. *)
Definition processImage_result (toLowerCase : jsstring -> jsstring)
    (r : recognition) (st : State) : State :=
  match r with
  | Recognized text => processImage toLowerCase text st
  | Rejected => mkState false error_message (extractedData st) 0
  end.

(** ** The rendered component (lines 123-223) *)

Record table_view : Type := mkTable {
  head_cells : list jsstring;
  body_rows : list (list jsstring)
}.

(** The blocks of the component: the upload control, the progress
    indicator with its percentage, the error box with its text, and the
    export button together with the table. *)
Record view : Type := mkView {
  upload_control : bool;
  progress_block : option N;
  error_block : option jsstring;
  table_block : option table_view
}.

(** [header.replace(/_/g, ' ')] *)
Definition replace_underscores (header : jsstring) : jsstring :=
  map (fun c => if c =? UNDERSCORE then 32 else c) header.

Section Render.

(** [String.prototype.toUpperCase], whose Unicode tables are not part of
    the repository. *)
Variable toUpperCase : jsstring -> jsstring.

(** Lines 190-199 *)
Definition display_header (header : jsstring) : jsstring :=
  toUpperCase (replace_underscores header).

(** Lines 173-214: nothing for [null]; for an array, the keys of its first
    element head the table, and [Object.keys(undefined)] throws when the
    array is empty. *)
Definition render_table (data : option (list record))
    : completion (option table_view) :=
  match data with
  | None => Normal None
  | Some [] => Throw TypeError
  | Some (row0 :: rows) =>
      Normal (Some (mkTable (map display_header (Object_keys row0))
                      (map Object_values (row0 :: rows))))
  end.

Definition render (st : State) : completion view :=
  match render_table (extractedData st) with
  | Throw e => Throw e
  | Normal t =>
      Normal
        (mkView
           (negb (isProcessing st)
            && match extractedData st with None => true | Some _ => false end)
           (if isProcessing st then Some (progress st) else None)
           (if truthy (error st) then Some (error st) else None)
           t)
  end.

End Render.

(** ** The component as a transition system *)

(** What can happen to the component: a file is chosen in the upload
    control, the awaited part of a running [processImage] ends, the export
    button is clicked.  The progress logger (lines 29-33) writes [progress]
    only and is left out. *)
Inductive event : Type :=
| ChooseFile (file : option File)
| RecognitionDone (r : recognition)
| ClickExport.

Section Component.

Variable toLowerCase : jsstring -> jsstring.
Variable toUpperCase : jsstring -> jsstring.

Definition upload_rendered (st : State) : bool :=
  match render toUpperCase st with
  | Normal v => upload_control v
  | Throw _ => false
  end.

Definition export_rendered (st : State) : bool :=
  match render toUpperCase st with
  | Normal v => match table_block v with Some _ => true | None => false end
  | Throw _ => false
  end.

(** The state after an event, or [None] when the event cannot happen: a
    control that is not rendered cannot be used, and a recognition ends only
    while [processImage] runs. *)
Definition dispatch (e : event) (st : State) : option State :=
  match e with
  | ChooseFile file =>
      if upload_rendered st then
        match handleFileUpload file st with
        | (st', Some _) => Some (processImage_start st')
        | (st', None) => Some st'
        end
      else None
  | RecognitionDone r =>
      if isProcessing st then Some (processImage_result toLowerCase r st)
      else None
  | ClickExport => if export_rendered st then Some st else None
  end.

(** The states the component can be in. *)
Inductive reachable : State -> Prop :=
| reachable_initial : reachable initial_state
| reachable_step (st st' : State) (e : event) :
    reachable st -> dispatch e st = Some st' -> reachable st'.

End Component.

(** The state after a sequence of events, when each of them can happen. *)
Fixpoint run (toLowerCase toUpperCase : jsstring -> jsstring)
    (events : list event) (st : State) : option State :=
  match events with
  | [] => Some st
  | e :: events' =>
      match dispatch toLowerCase toUpperCase e st with
      | Some st' => run toLowerCase toUpperCase events' st'
      | None => None
      end
  end.

(** ** An inverse of the quoting *)

Definition hex_value (h : N) : N := if h <? 58 then h - 48 else h - 87.

(** The character a backslash escape of one letter stands for. *)
Definition unescape_letter (x : N) : N :=
  if x =? 98 then 8
  else if x =? 116 then 9
  else if x =? 110 then 10
  else if x =? 102 then 12
  else if x =? 114 then 13
  else x.

(** Reading back what [quote_body] writes. *)
Fixpoint unquote_body (out : jsstring) : jsstring :=
  match out with
  | [] => []
  | c :: rest =>
      if c =? BACKSLASH then
        match rest with
        | [] => []
        | x :: rest1 =>
            if x =? 117 then
              match rest1 with
              | h1 :: h2 :: h3 :: h4 :: rest2 =>
                  (hex_value h1 * 4096 + hex_value h2 * 256
                   + hex_value h3 * 16 + hex_value h4)
                  :: unquote_body rest2
              | _ => []
              end
            else unescape_letter x :: unquote_body rest1
        end
      else c :: unquote_body rest
  end.

(** [String.prototype.toUpperCase] restricted to the ASCII letters. *)
Definition toUpperCase_ascii (s : jsstring) : jsstring :=
  map (fun c => if (97 <=? c) && (c <=? 122) then c - 32 else c) s.

Definition png_file : File := mkFile (js "image/png").

(** ** Notions of the specification *)

(** A Token as the specification defines it: a maximal run of code units
    that are not white space.  A run ends at the end of the line or in front
    of a white space code unit. *)
Fixpoint maximal_runs (s : jsstring) : list jsstring :=
  match s with
  | [] => []
  | c :: s' =>
      if isWhiteSpace c then maximal_runs s'
      else if starts_ws s' || negb (truthy s') then [c] :: maximal_runs s'
      else cons_first c (maximal_runs s')
  end.

(** The members of a sequence of keys in order of first appearance. *)
Fixpoint first_occurrences_from (seen keys : list jsstring) : list jsstring :=
  match keys with
  | [] => []
  | k :: keys' =>
      if existsb (jsstring_eqb k) seen then first_occurrences_from seen keys'
      else k :: first_occurrences_from (seen ++ [k]) keys'
  end.

Definition first_occurrences (keys : list jsstring) : list jsstring :=
  first_occurrences_from [] keys.

(** Plain alphanumeric content: the digits and the unaccented letters. *)
Definition isAlnum (c : N) : bool :=
  isDigit c || ((65 <=? c) && (c <=? 90)) || ((97 <=? c) && (c <=? 122)).

Definition alphanumeric (s : jsstring) : bool := forallb isAlnum s.

(** The re-tokenizer of the round-trip property of the specification, which
    has no counterpart in the source: a field loses the double quote in front
    of it and the one behind it when it has both. *)
Definition strip_quotes (field : jsstring) : jsstring :=
  match field with
  | c :: rest =>
      if c =? DQUOTE then
        match rev rest with
        | d :: inner => if d =? DQUOTE then rev inner else field
        | [] => field
        end
      else field
  | [] => field
  end.

Definition retokenize (payload : jsstring) : list (list jsstring) :=
  map (fun line => map strip_quotes (split_on COMMA line))
    (split_on LF payload).

(** [no_ws s]: no code unit of [s] is white space. *)
Definition no_ws (s : jsstring) : bool :=
  forallb (fun c => negb (isWhiteSpace c)) s.

(** The code units QuoteJSONString copies: from 32 up, other than the double
    quote, the backslash and the surrogates. *)
Definition isPlain (c : N) : bool :=
  (32 <=? c) && negb (c =? DQUOTE) && negb (c =? BACKSLASH)
  && negb (is_high_surrogate c || is_low_surrogate c).

(** Every double quote of [out] has a backslash in front of it. *)
Definition quotes_escaped (out : jsstring) : Prop :=
  forall pre post, out = pre ++ DQUOTE :: post ->
                   exists pre', pre = pre' ++ [BACKSLASH].

(** The header keys for which an assignment creates a property. *)
Definition not_proto (h : jsstring) : bool :=
  negb (jsstring_eqb h proto_key).

(** The requirement on the case mapping that the proofs use: only the empty
    string is mapped to the empty string. *)
Definition preserves_empty (f : jsstring -> jsstring) : Prop :=
  forall s, f s = [] <-> s = [].

(** ** Example inputs *)

(** The end-to-end example of the specification. *)
Definition spec_example_text : jsstring :=
  js "NAME AGE CITY" ++ [LF] ++ js "John 30 Austin" ++ [LF]
  ++ js "Jane 25 Denver" ++ [LF] ++ js "   " ++ [LF].

Definition spec_example_table : list record :=
  [ [(js "name", js "John"); (js "age", js "30"); (js "city", js "Austin")];
    [(js "name", js "Jane"); (js "age", js "25"); (js "city", js "Denver")] ].

Definition spec_example_csv : jsstring :=
  js "name,age,city" ++ [LF]
  ++ [DQUOTE] ++ js "John" ++ [DQUOTE; COMMA; DQUOTE] ++ js "30"
  ++ [DQUOTE; COMMA; DQUOTE] ++ js "Austin" ++ [DQUOTE] ++ [LF]
  ++ [DQUOTE] ++ js "Jane" ++ [DQUOTE; COMMA; DQUOTE] ++ js "25"
  ++ [DQUOTE; COMMA; DQUOTE] ++ js "Denver" ++ [DQUOTE].

(** The ragged example of the specification. *)
Definition ragged_text : jsstring :=
  js "COL1 COL2" ++ [LF] ++ js "only_one_value" ++ [LF].

(** Two header tokens that normalise to one key, and a line of one token. *)
Definition duplicate_key_text : jsstring :=
  js "TOTAL total" ++ [LF] ++ js "7".

(** Two header tokens that normalise to one key, and a line of two
    tokens. *)
Definition duplicate_key_row_text : jsstring :=
  js "TOTAL total" ++ [LF] ++ js "7 9".

(** A header token that is an array index. *)
Definition index_key_text : jsstring :=
  js "ITEM 2020" ++ [LF] ++ js "pen 7".

Definition index_key_table : list record :=
  [ [(js "item", js "pen"); (js "2020", js "7")] ].

Definition index_key_csv : jsstring :=
  js "2020,item" ++ [LF]
  ++ [DQUOTE] ++ js "7" ++ [DQUOTE; COMMA; DQUOTE] ++ js "pen" ++ [DQUOTE].

(** A header token that normalises to [__proto__]. *)
Definition proto_key_text : jsstring :=
  js "__PROTO__ QTY" ++ [LF] ++ js "pen 7".

(** A value that ends in a double quote. *)
Definition quote_value_text : jsstring :=
  js "SIZE" ++ [LF] ++ js "3" ++ [DQUOTE].

Definition quote_value_table : list record :=
  [ [(js "size", js "3" ++ [DQUOTE])] ].

Definition csv_download (payload : jsstring) : download :=
  mkDownload payload (js "text/csv;charset=utf-8;") (js "spreadsheet_data.csv").

(** * Properties *)

(** ** Strings *)

Lemma jsstring_eqb_eq (s t : jsstring) : jsstring_eqb s t = true <-> s = t.
Proof.
  revert t; induction s as [|c s IH]; intros [|d t]; simpl;
    try (split; [discriminate | discriminate]); try tauto.
  rewrite andb_true_iff, N.eqb_eq, IH.
  split; [intros [-> ->]; reflexivity | intros H; inversion H; auto].
Qed.

Lemma jsstring_eqb_refl (s : jsstring) : jsstring_eqb s s = true.
Proof. apply jsstring_eqb_eq; reflexivity. Qed.

Lemma jsstring_eqb_neq (s t : jsstring) : jsstring_eqb s t = false <-> s <> t.
Proof.
  rewrite <- jsstring_eqb_eq. destruct (jsstring_eqb s t); split; congruence.
Qed.


Lemma truthy_true (s : jsstring) : truthy s = true <-> s <> [].
Proof. destruct s; simpl; split; congruence. Qed.

Lemma truthy_false (s : jsstring) : truthy s = false <-> s = [].
Proof. destruct s; simpl; split; congruence. Qed.

Lemma toLowerCase_ascii_preserves_empty : preserves_empty toLowerCase_ascii.
Proof.
  intros s; unfold toLowerCase_ascii; destruct s; simpl; split; congruence.
Qed.

Lemma split_ws_cons (s : jsstring) : exists seg rest, split_ws s = seg :: rest.
Proof.
  induction s as [|c s (seg & rest & IH)]; simpl; eauto.
  destruct (isWhiteSpace c); [destruct (starts_ws s)|]; eauto.
  rewrite IH; simpl; eauto.
Qed.

Lemma split_ws_starts_ws (s : jsstring) :
  starts_ws s = true -> exists rest, split_ws s = [] :: rest.
Proof.
  induction s as [|c s IH]; simpl; [discriminate|].
  intros ->. destruct (starts_ws s); eauto.
Qed.

Lemma split_ws_no_ws (s : jsstring) :
  Forall (fun seg => no_ws seg = true) (split_ws s).
Proof.
  induction s as [|c s IH]; simpl.
  - constructor; auto.
  - destruct (isWhiteSpace c) eqn:E.
    + destruct (starts_ws s); auto.
    + destruct (split_ws s) as [|seg rest]; simpl.
      * constructor; simpl; auto. now rewrite E.
      * inversion IH; subst. constructor; auto. simpl. now rewrite E.
Qed.

Lemma tokens_maximal_runs (s : jsstring) : tokens s = maximal_runs s.
Proof.
  unfold tokens. induction s as [|c s IH]; simpl; [reflexivity|].
  destruct (isWhiteSpace c) eqn:E.
  - destruct (starts_ws s); simpl; exact IH.
  - destruct s as [|d s']; [reflexivity|].
    cbn [starts_ws truthy negb orb].
    destruct (isWhiteSpace d) eqn:Ed.
    + destruct (split_ws_starts_ws (d :: s')) as [rest Hr]; [exact Ed|].
      rewrite <- IH. rewrite Hr. reflexivity.
    + rewrite <- IH. cbn [split_ws]. rewrite Ed.
      destruct (split_ws_cons s') as (seg & rest & Hs). rewrite Hs. reflexivity.
Qed.

Lemma tokens_truthy (s : jsstring) :
  Forall (fun t => truthy t = true) (tokens s).
Proof.
  unfold tokens. apply Forall_forall. intros t Ht.
  apply filter_In in Ht. tauto.
Qed.

Lemma tokens_no_ws (s : jsstring) : Forall (fun t => no_ws t = true) (tokens s).
Proof.
  unfold tokens. apply Forall_forall. intros t Ht.
  apply filter_In in Ht. destruct Ht as [Ht _].
  pose proof (split_ws_no_ws s) as H. rewrite Forall_forall in H. auto.
Qed.

Lemma maximal_runs_concat (s : jsstring) :
  concat (maximal_runs s) = filter (fun c => negb (isWhiteSpace c)) s.
Proof.
  induction s as [|c s IH]; simpl; [reflexivity|].
  destruct (isWhiteSpace c); simpl; [exact IH|].
  destruct (starts_ws s || negb (truthy s)); simpl; [now rewrite IH|].
  rewrite <- IH. destruct (maximal_runs s); reflexivity.
Qed.

Lemma maximal_runs_nil (s : jsstring) :
  maximal_runs s = [] <-> forallb isWhiteSpace s = true.
Proof.
  induction s as [|c s IH]; simpl; [tauto|].
  destruct (isWhiteSpace c); simpl; [exact IH|].
  split; [|discriminate].
  destruct (starts_ws s || negb (truthy s)); [discriminate|].
  destruct (maximal_runs s); discriminate.
Qed.

Lemma trimStart_nil (s : jsstring) :
  trimStart s = [] <-> forallb isWhiteSpace s = true.
Proof.
  induction s as [|c s IH]; simpl; [tauto|].
  destruct (isWhiteSpace c); simpl; [exact IH|].
  split; discriminate.
Qed.


Lemma trimStart_all_ws (s : jsstring) :
  forallb isWhiteSpace (trimStart s) = forallb isWhiteSpace s.
Proof.
  induction s as [|c s IH]; simpl; [reflexivity|].
  destruct (isWhiteSpace c) eqn:E; simpl; [exact IH|]. now rewrite E.
Qed.

Lemma forallb_rev {A} (p : A -> bool) (l : list A) :
  forallb p (rev l) = forallb p l.
Proof.
  induction l as [|x l IH]; simpl; [reflexivity|].
  rewrite forallb_app, IH. simpl. rewrite andb_true_r. apply andb_comm.
Qed.

Lemma trim_nil (s : jsstring) : trim s = [] <-> forallb isWhiteSpace s = true.
Proof.
  unfold trim. rewrite <- trimStart_all_ws, <- forallb_rev, <- trimStart_nil.
  split; intros H.
  - apply (f_equal (@rev N)) in H. now rewrite rev_involutive in H.
  - now rewrite H.
Qed.

Lemma trimStart_no_ws (s : jsstring) : no_ws s = true -> trimStart s = s.
Proof.
  destruct s as [|c s]; simpl; [reflexivity|].
  destruct (isWhiteSpace c); simpl; [discriminate | reflexivity].
Qed.

Lemma trim_no_ws (s : jsstring) : no_ws s = true -> trim s = s.
Proof.
  intros H. unfold trim. rewrite (trimStart_no_ws s H).
  rewrite trimStart_no_ws, rev_involutive; [reflexivity|].
  unfold no_ws. now rewrite forallb_rev.
Qed.

Lemma blank_line_tokens (line : jsstring) :
  truthy (trim line) = true <-> tokens line <> [].
Proof.
  rewrite truthy_true, tokens_maximal_runs, trim_nil, maximal_runs_nil.
  tauto.
Qed.

Lemma replace_ws_nil (s : jsstring) : replace_ws s = [] <-> s = [].
Proof.
  split; [|intros ->; reflexivity].
  induction s as [|c s IH]; simpl; [reflexivity|].
  destruct (isWhiteSpace c); [|discriminate].
  destruct s as [|d s']; [discriminate|].
  cbn [starts_ws]. destruct (isWhiteSpace d) eqn:E; [|discriminate].
  intros H. specialize (IH H). discriminate.
Qed.

Lemma replace_ws_no_ws (s : jsstring) : no_ws (replace_ws s) = true.
Proof.
  induction s as [|c s IH]; simpl; [reflexivity|].
  destruct (isWhiteSpace c) eqn:E.
  - destruct (starts_ws s); simpl; auto.
  - simpl. now rewrite E.
Qed.

Lemma filter_map_commute {A} (p : A -> bool) (f : A -> A) (l : list A) :
  (forall x, In x l -> p (f x) = p x) ->
  filter p (map f l) = map f (filter p l).
Proof.
  induction l as [|x l IH]; simpl; intros H; [reflexivity|].
  rewrite (H x (or_introl eq_refl)).
  destruct (p x); simpl; rewrite IH; auto.
Qed.

Lemma split_lines_not_blank (text : jsstring) :
  Forall (fun line => truthy (trim line) = true) (split_lines text).
Proof.
  apply Forall_forall. intros line H. apply filter_In in H. tauto.
Qed.

Lemma filter_all {A} (p : A -> bool) (l : list A) :
  Forall (fun x => p x = true) l -> filter p l = l.
Proof.
  induction 1 as [|x l Hx _ IH]; simpl; [reflexivity|]. now rewrite Hx, IH.
Qed.

(** ** Header normalisation *)

Section Headers.

Variable toLowerCase : jsstring -> jsstring.
Hypothesis lower_empty : preserves_empty toLowerCase.

Lemma normalize_header_truthy (seg : jsstring) :
  no_ws seg = true ->
  truthy (normalize_header toLowerCase seg) = truthy seg.
Proof.
  intros H. unfold normalize_header. rewrite (trim_no_ws seg H).
  destruct (truthy seg) eqn:E.
  - apply truthy_true. apply truthy_true in E.
    rewrite replace_ws_nil, (lower_empty seg). exact E.
  - apply truthy_false in E. subst seg.
    apply truthy_false, replace_ws_nil, lower_empty. reflexivity.
Qed.

Lemma extract_headers_tokens (line0 : jsstring) :
  extract_headers toLowerCase line0
  = map (normalize_header toLowerCase) (tokens line0).
Proof.
  unfold extract_headers, tokens. apply filter_map_commute.
  intros seg Hseg. apply normalize_header_truthy.
  pose proof (split_ws_no_ws line0) as H. rewrite Forall_forall in H. auto.
Qed.

Lemma extract_headers_not_nil (line0 : jsstring) :
  truthy (trim line0) = true -> extract_headers toLowerCase line0 <> [].
Proof.
  intros H. rewrite extract_headers_tokens.
  apply blank_line_tokens in H. destruct (tokens line0); [congruence|].
  discriminate.
Qed.

End Headers.

(** ** Records *)

Lemma own_lookup_None (row : record) (k : jsstring) :
  own_lookup row k = None <-> ~ In k (map fst row).
Proof.
  induction row as [|[k' v] row IH]; simpl; [tauto|].
  destruct (jsstring_eqb k' k) eqn:E.
  - apply jsstring_eqb_eq in E. split; [discriminate | tauto].
  - apply jsstring_eqb_neq in E. tauto.
Qed.

Lemma own_lookup_Some (row : record) (k : jsstring) :
  In k (map fst row) -> exists v, own_lookup row k = Some v.
Proof.
  intros H. destruct (own_lookup row k) eqn:E; eauto.
  apply own_lookup_None in E. contradiction.
Qed.

Lemma existsb_eqb_In (k : jsstring) (l : list jsstring) :
  existsb (jsstring_eqb k) l = true <-> In k l.
Proof.
  rewrite existsb_exists. split.
  - intros (x & Hx & E). apply jsstring_eqb_eq in E. now subst.
  - intros H. exists k. split; [exact H | apply jsstring_eqb_refl].
Qed.

Lemma own_lookup_existsb (row : record) (k : jsstring) :
  existsb (jsstring_eqb k) (map fst row)
  = match own_lookup row k with Some _ => true | None => false end.
Proof.
  destruct (own_lookup row k) eqn:E.
  - apply existsb_eqb_In.
    destruct (in_dec (list_eq_dec N.eq_dec) k (map fst row));
      [assumption|]. apply own_lookup_None in n. congruence.
  - apply own_lookup_None in E.
    destruct (existsb (jsstring_eqb k) (map fst row)) eqn:X; [|reflexivity].
    apply existsb_eqb_In in X. contradiction.
Qed.

Lemma own_update_keys (row : record) (k v : jsstring) :
  map fst (own_update row k v) = map fst row.
Proof.
  induction row as [|[k' v'] row IH]; simpl; [reflexivity|].
  destruct (jsstring_eqb k' k); simpl; [reflexivity | now rewrite IH].
Qed.

Lemma own_lookup_update (row : record) (k v k' : jsstring) :
  own_lookup (own_update row k v) k'
  = if jsstring_eqb k k'
    then match own_lookup row k with Some _ => Some v | None => None end
    else own_lookup row k'.
Proof.
  induction row as [|[k0 v0] row IH]; simpl.
  - destruct (jsstring_eqb k k'); reflexivity.
  - destruct (jsstring_eqb k0 k) eqn:E0; simpl.
    + apply jsstring_eqb_eq in E0. subst k0.
      destruct (jsstring_eqb k k'); reflexivity.
    + rewrite IH. destruct (jsstring_eqb k k') eqn:E.
      * apply jsstring_eqb_eq in E. subst k'. now rewrite E0.
      * reflexivity.
Qed.

Lemma own_lookup_snoc (row : record) (k v k' : jsstring) :
  own_lookup (row ++ [(k, v)]) k'
  = match own_lookup row k' with
    | Some x => Some x
    | None => if jsstring_eqb k k' then Some v else None
    end.
Proof.
  induction row as [|[k0 v0] row IH]; simpl; [reflexivity|].
  destruct (jsstring_eqb k0 k'); [reflexivity | exact IH].
Qed.

Lemma Object_set_lookup_same (row : record) (k v : jsstring) :
  k <> proto_key -> own_lookup (Object_set row k v) k = Some v.
Proof.
  intros Hk. unfold Object_set.
  apply jsstring_eqb_neq in Hk. rewrite Hk.
  destruct (own_lookup row k) eqn:E.
  - now rewrite own_lookup_update, jsstring_eqb_refl, E.
  - now rewrite own_lookup_snoc, E, jsstring_eqb_refl.
Qed.

Lemma Object_set_lookup_other (row : record) (k v k' : jsstring) :
  k <> k' -> own_lookup (Object_set row k v) k' = own_lookup row k'.
Proof.
  intros Hk. unfold Object_set. apply jsstring_eqb_neq in Hk.
  destruct (jsstring_eqb k proto_key); [reflexivity|].
  destruct (own_lookup row k) eqn:E.
  - now rewrite own_lookup_update, Hk.
  - rewrite own_lookup_snoc, Hk. now destruct (own_lookup row k').
Qed.

Lemma Object_set_keys (row : record) (k v : jsstring) :
  map fst (Object_set row k v)
  = if jsstring_eqb k proto_key then map fst row
    else if existsb (jsstring_eqb k) (map fst row) then map fst row
    else map fst row ++ [k].
Proof.
  unfold Object_set. destruct (jsstring_eqb k proto_key); [reflexivity|].
  rewrite own_lookup_existsb. destruct (own_lookup row k).
  - apply own_update_keys.
  - now rewrite map_app.
Qed.

Lemma insert_index_In (n : N) (k : jsstring) (l : list (N * jsstring))
    (x : N * jsstring) :
  In x (insert_index n k l) <-> x = (n, k) \/ In x l.
Proof.
  induction l as [|[m k'] l IH]; simpl.
  - intuition congruence.
  - destruct (n <=? m); simpl; [intuition congruence|].
    rewrite IH. intuition congruence.
Qed.

Lemma index_keys_In (keys : list jsstring) (k : jsstring) :
  In k (map snd (index_keys keys)) <-> In k keys /\ is_array_index k = true.
Proof.
  unfold is_array_index. induction keys as [|k0 keys IH]; simpl; [tauto|].
  destruct (array_index k0) eqn:E.
  - rewrite in_map_iff. split.
    + intros ([m k1] & Hk & Hin). simpl in Hk. subst k1.
      apply insert_index_In in Hin. destruct Hin as [Hin | Hin].
      * inversion Hin; subst. rewrite E. tauto.
      * assert (In k (map snd (index_keys keys))) as H
          by (apply in_map_iff; exists (m, k); auto).
        apply IH in H. tauto.
    + intros [[-> | Hin] Hidx].
      * exists (n, k). split; [reflexivity|]. apply insert_index_In. auto.
      * assert (In k (map snd (index_keys keys))) as H by (apply IH; auto).
        apply in_map_iff in H. destruct H as ([m k1] & Hk & H).
        simpl in Hk. subst k1. exists (m, k). split; [reflexivity|].
        apply insert_index_In. auto.
  - rewrite IH. split; [tauto|]. intros [[-> | Hin] Hidx]; [|tauto].
    rewrite E in Hidx. discriminate.
Qed.

Lemma Object_keys_In (row : record) (k : jsstring) :
  In k (Object_keys row) <-> In k (map fst row).
Proof.
  unfold Object_keys, OrdinaryOwnPropertyKeys.
  rewrite in_app_iff, index_keys_In, filter_In, negb_true_iff.
  destruct (is_array_index k); intuition congruence.
Qed.

Lemma index_keys_none (keys : list jsstring) :
  Forall (fun k => is_array_index k = false) keys -> index_keys keys = [].
Proof.
  unfold is_array_index.
  induction 1 as [|k keys Hk _ IH]; simpl; [reflexivity|].
  destruct (array_index k); [discriminate | exact IH].
Qed.

Lemma Object_keys_no_index (row : record) :
  Forall (fun k => is_array_index k = false) (map fst row) ->
  Object_keys row = map fst row.
Proof.
  intros H. unfold Object_keys, OrdinaryOwnPropertyKeys.
  rewrite (index_keys_none _ H). simpl. apply filter_all.
  apply Forall_forall. rewrite Forall_forall in H. intros k Hk.
  now rewrite (H k Hk).
Qed.

Lemma Object_keys_same_keys (row row' : record) :
  map fst row = map fst row' -> Object_keys row = Object_keys row'.
Proof.
  unfold Object_keys, OrdinaryOwnPropertyKeys. now intros ->.
Qed.

Lemma Object_get_own (row : record) (k : jsstring) :
  In k (map fst row) -> Object_get row k = JString (own_value row k).
Proof.
  intros H. destruct (own_lookup_Some row k H) as [v Hv].
  unfold Object_get, own_value. now rewrite Hv.
Qed.

Lemma Object_values_In (row : record) (k v : jsstring) :
  own_lookup row k = Some v -> In v (Object_values row).
Proof.
  intros H. unfold Object_values. apply in_map_iff. exists k. split.
  - unfold own_value. now rewrite H.
  - apply Object_keys_In.
    destruct (in_dec (list_eq_dec N.eq_dec) k (map fst row)); [assumption|].
    apply own_lookup_None in n. congruence.
Qed.

(** ** Row building *)

Section Columns.

Variable values : list jsstring.

Lemma set_column_fst (acc : nat * record) (h : jsstring) :
  fst (set_column values acc h) = S (fst acc).
Proof. destruct acc; reflexivity. Qed.

Lemma set_column_snd (acc : nat * record) (h : jsstring) :
  snd (set_column values acc h)
  = Object_set (snd acc) h (nth (fst acc) values []).
Proof. destruct acc; reflexivity. Qed.

Lemma fold_columns_fst (hs : list jsstring) (acc : nat * record) :
  fst (fold_left (set_column values) hs acc) = (fst acc + length hs)%nat.
Proof.
  revert acc; induction hs as [|h hs IH]; intros acc; simpl; [lia|].
  rewrite IH, set_column_fst. lia.
Qed.

Lemma fold_columns_lookup_other (hs : list jsstring) (acc : nat * record)
    (h : jsstring) :
  ~ In h hs ->
  own_lookup (snd (fold_left (set_column values) hs acc)) h
  = own_lookup (snd acc) h.
Proof.
  revert acc; induction hs as [|h' hs IH]; intros acc Hin; simpl;
    [reflexivity|].
  rewrite IH by (simpl in Hin; tauto).
  rewrite set_column_snd. apply Object_set_lookup_other.
  simpl in Hin. intros ->. tauto.
Qed.

Lemma fold_columns_lookup_last (pre post : list jsstring)
    (acc : nat * record) (h : jsstring) :
  h <> proto_key -> ~ In h post ->
  own_lookup (snd (fold_left (set_column values) (pre ++ h :: post) acc)) h
  = Some (nth (fst acc + length pre) values []).
Proof.
  intros Hp Hpost. rewrite fold_left_app. simpl.
  rewrite fold_columns_lookup_other by assumption.
  rewrite set_column_snd, fold_columns_fst.
  now apply Object_set_lookup_same.
Qed.

Lemma fold_columns_keys (hs : list jsstring) (acc : nat * record) :
  map fst (snd (fold_left (set_column values) hs acc))
  = map fst (snd acc)
    ++ first_occurrences_from (map fst (snd acc)) (filter not_proto hs).
Proof.
  revert acc; induction hs as [|h hs IH]; intros acc; simpl.
  - now rewrite app_nil_r.
  - rewrite IH, set_column_snd, Object_set_keys. unfold not_proto at 2.
    destruct (jsstring_eqb h proto_key); simpl; [reflexivity|].
    destruct (existsb (jsstring_eqb h) (map fst (snd acc))); [reflexivity|].
    now rewrite <- app_assoc.
Qed.

End Columns.

Lemma fold_columns_ext (values values' : list jsstring) (hs : list jsstring)
    (acc : nat * record) :
  (forall i, (fst acc <= i < fst acc + length hs)%nat ->
             nth i values [] = nth i values' []) ->
  fold_left (set_column values) hs acc = fold_left (set_column values') hs acc.
Proof.
  revert acc; induction hs as [|h hs IH]; intros [i row] H; simpl;
    [reflexivity|].
  simpl in H. rewrite (H i) by lia. apply IH. simpl. intros j Hj.
  apply H. lia.
Qed.

Lemma nth_firstn {A} (n i : nat) (l : list A) (d : A) :
  (i < n)%nat -> nth i (firstn n l) d = nth i l d.
Proof.
  revert i l; induction n as [|n IH]; intros i l Hi; [lia|].
  destruct l as [|x l]; [reflexivity|]. destruct i as [|i]; [reflexivity|].
  simpl. apply IH. lia.
Qed.

Lemma build_row_keys (headers : list jsstring) (line : jsstring) :
  map fst (build_row headers line)
  = first_occurrences (filter not_proto headers).
Proof. unfold build_row. now rewrite fold_columns_keys. Qed.

Lemma first_occurrences_from_In (seen keys : list jsstring) (k : jsstring) :
  In k (first_occurrences_from seen keys) <-> In k keys /\ ~ In k seen.
Proof.
  revert seen; induction keys as [|k0 keys IH]; intros seen; simpl; [tauto|].
  destruct (existsb (jsstring_eqb k0) seen) eqn:E.
  - apply existsb_eqb_In in E. rewrite IH. intuition (subst; tauto).
  - assert (~ In k0 seen) as Hn
        by (intros X; apply existsb_eqb_In in X; congruence).
    simpl. rewrite IH, in_app_iff. simpl.
    destruct (list_eq_dec N.eq_dec k0 k) as [-> | Hne]; [tauto|].
    intuition congruence.
Qed.

Lemma first_occurrences_from_NoDup (seen keys : list jsstring) :
  NoDup keys -> (forall k, In k keys -> ~ In k seen) ->
  first_occurrences_from seen keys = keys.
Proof.
  intros H; revert seen; induction H as [|k keys Hk _ IH]; intros seen Hs;
    simpl; [reflexivity|].
  destruct (existsb (jsstring_eqb k) seen) eqn:E.
  - apply existsb_eqb_In in E. exfalso. apply (Hs k); simpl; auto.
  - f_equal. apply IH. intros k' Hk' Hin. apply in_app_iff in Hin.
    destruct Hin as [Hin | [-> | []]]; [|contradiction].
    apply (Hs k'); simpl; auto.
Qed.

Lemma first_occurrences_NoDup (keys : list jsstring) :
  NoDup keys -> first_occurrences keys = keys.
Proof.
  intros H. apply first_occurrences_from_NoDup; [exact H|]. intros k _ [].
Qed.

Lemma build_row_keys_In (headers : list jsstring) (line k : jsstring) :
  In k (Object_keys (build_row headers line))
  <-> In k headers /\ k <> proto_key.
Proof.
  rewrite Object_keys_In, build_row_keys.
  unfold first_occurrences. rewrite first_occurrences_from_In, filter_In.
  unfold not_proto. rewrite negb_true_iff, jsstring_eqb_neq. simpl. tauto.
Qed.

Lemma In_nth_error_after {A} (pre post : list A) (x : A) :
  In x post ->
  exists j, (length pre < j)%nat /\ nth_error (pre ++ x :: post) j = Some x.
Proof.
  intros H. apply In_nth_error in H. destruct H as [n Hn].
  exists (length pre + S n)%nat. split; [lia|].
  rewrite nth_error_app2 by lia.
  replace (length pre + S n - length pre)%nat with (S n) by lia. exact Hn.
Qed.

(** C4, as the code has it: the record of a data line gives a header key
    other than [__proto__] the token at the last index at which the key
    stands in the header sequence, and the empty string when the line has no
    token there; the tokens from index [length headers] on do not reach the
    record. *)
Theorem build_row_positional (headers : list jsstring) (line : jsstring)
    (i : nat) (h : jsstring) :
  nth_error headers i = Some h ->
  h <> proto_key ->
  (forall j, (i < j)%nat -> nth_error headers j <> Some h) ->
  Object_get (build_row headers line) h = JString (nth i (tokens line) []) /\
  ((length (tokens line) <= i)%nat ->
   Object_get (build_row headers line) h = JString []) /\
  (forall line',
      firstn (length headers) (tokens line')
      = firstn (length headers) (tokens line) ->
      build_row headers line' = build_row headers line).
Proof.
  intros Hi Hp Hlast.
  assert (Object_get (build_row headers line) h
          = JString (nth i (tokens line) [])) as Hget.
  { destruct (nth_error_split _ _ Hi) as (pre & post & -> & Hlen).
    assert (~ In h post) as Hpost.
    { intros Hin. destruct (In_nth_error_after pre post h Hin)
        as (j & Hj & Hn).
      apply (Hlast j); [lia | exact Hn]. }
    unfold Object_get, build_row.
    rewrite (fold_columns_lookup_last (tokens line) pre post (0%nat, []) h
               Hp Hpost).
    simpl. now rewrite Hlen. }
  split; [exact Hget|]. split.
  - intros Hshort. rewrite Hget. now rewrite nth_overflow.
  - intros line' Hsame. unfold build_row. f_equal.
    apply fold_columns_ext. simpl. intros j Hj.
    rewrite <- (nth_firstn (length headers) j (tokens line')) by lia.
    rewrite <- (nth_firstn (length headers) j (tokens line)) by lia.
    now rewrite Hsame.
Qed.

(** ** Export *)

Lemma csv_field_own (row : record) (h : jsstring) :
  In h (map fst row) -> csv_field row h = QuoteJSONString (own_value row h).
Proof.
  intros H. unfold csv_field. rewrite (Object_get_own row h H).
  destruct (own_value row h); reflexivity.
Qed.

Lemma csv_row_own_keys (row : record) :
  csv_row (Object_keys row) row
  = join [COMMA] (map QuoteJSONString (Object_values row)).
Proof.
  unfold csv_row, Object_values. rewrite map_map. f_equal.
  apply map_ext_in. intros h Hh. apply csv_field_own.
  now apply Object_keys_In.
Qed.

Lemma split_on_no_sep (sep : N) (x : jsstring) :
  ~ In sep x -> split_on sep x = [x].
Proof.
  induction x as [|c x IH]; simpl; intros H; [reflexivity|].
  destruct (c =? sep) eqn:E.
  - apply N.eqb_eq in E. tauto.
  - rewrite IH by tauto. reflexivity.
Qed.

Lemma split_on_app (sep : N) (x s : jsstring) :
  ~ In sep x -> split_on sep (x ++ sep :: s) = x :: split_on sep s.
Proof.
  induction x as [|c x IH]; simpl; intros H.
  - now rewrite N.eqb_refl.
  - destruct (c =? sep) eqn:E.
    + apply N.eqb_eq in E. tauto.
    + rewrite IH by tauto. reflexivity.
Qed.

Lemma split_on_join (sep : N) (l : list jsstring) :
  l <> [] -> Forall (fun x => ~ In sep x) l ->
  split_on sep (join [sep] l) = l.
Proof.
  induction l as [|x l IH]; intros Hne H; [congruence|].
  inversion H as [|? ? Hx Hl]; subst. destruct l as [|y l].
  - simpl. now apply split_on_no_sep.
  - change (join [sep] (x :: y :: l)) with (x ++ sep :: join [sep] (y :: l)).
    rewrite split_on_app by assumption. f_equal. apply IH; [discriminate|].
    assumption.
Qed.

Lemma join_In (c : N) (sep : jsstring) (l : list jsstring) :
  In c (join sep l) -> In c sep \/ exists x, In x l /\ In c x.
Proof.
  induction l as [|x l IH]; simpl; [tauto|].
  destruct l as [|y l].
  - intros H. right. exists x. auto.
  - rewrite !in_app_iff. intros [H | [H | H]].
    + right. exists x. auto.
    + auto.
    + destruct (IH H) as [? | (z & Hz & Hc)]; [auto|].
      right. exists z. split; [right; exact Hz | exact Hc].
Qed.

Lemma escape_unit_plain (c : N) :
  32 <= c -> c <> DQUOTE -> c <> BACKSLASH -> c < 55296 \/ 57343 < c ->
  escape_unit c = [c].
Proof.
  unfold DQUOTE, BACKSLASH. intros H1 H2 H3 H4.
  unfold escape_unit, is_high_surrogate, is_low_surrogate, DQUOTE, BACKSLASH.
  repeat match goal with
         | |- context [?a =? ?b] =>
             destruct (N.eqb_spec a b); [lia|]
         | |- context [?a <? ?b] =>
             destruct (N.ltb_spec a b); [lia|]
         end.
  destruct (N.leb_spec 55296 c), (N.leb_spec c 56319),
    (N.leb_spec 56320 c), (N.leb_spec c 57343); simpl; try reflexivity; lia.
Qed.

Lemma isAlnum_range (c : N) :
  isAlnum c = true -> 48 <= c <= 57 \/ 65 <= c <= 90 \/ 97 <= c <= 122.
Proof.
  unfold isAlnum, isDigit.
  rewrite !orb_true_iff, !andb_true_iff, !N.leb_le. lia.
Qed.

Lemma quote_body_alphanumeric (v : jsstring) :
  alphanumeric v = true -> quote_body v = v.
Proof.
  unfold alphanumeric. induction v as [|c v IH]; simpl; [reflexivity|].
  rewrite andb_true_iff. intros [Hc Hv]. apply isAlnum_range in Hc.
  assert (escape_unit c = [c]) as Hesc
      by (apply escape_unit_plain; unfold DQUOTE, BACKSLASH; lia).
  destruct v as [|d v']; [exact Hesc|].
  assert (is_high_surrogate c = false) as Hs.
  { unfold is_high_surrogate. apply andb_false_iff. left.
    apply N.leb_gt. lia. }
  rewrite Hs, Hesc. simpl andb. cbv iota. simpl app. f_equal. now apply IH.
Qed.

Lemma alphanumeric_not_In (c : N) (v : jsstring) :
  alphanumeric v = true -> c < 48 -> ~ In c v.
Proof.
  unfold alphanumeric. rewrite forallb_forall. intros H Hc Hin.
  apply H, isAlnum_range in Hin. lia.
Qed.

Lemma strip_quotes_quoted (v : jsstring) :
  strip_quotes (DQUOTE :: v ++ [DQUOTE]) = v.
Proof.
  unfold strip_quotes. rewrite rev_app_distr. simpl.
  apply rev_involutive.
Qed.

Lemma no_ws_not_LF (s : jsstring) : no_ws s = true -> ~ In LF s.
Proof.
  unfold no_ws. rewrite forallb_forall. intros H Hin.
  apply H in Hin. discriminate.
Qed.

(** The fields of a line of quoted alphanumeric values are the values. *)
Lemma retokenize_line (vals : list jsstring) :
  vals <> [] -> Forall (fun v => alphanumeric v = true) vals ->
  map strip_quotes
    (split_on COMMA (join [COMMA] (map QuoteJSONString vals))) = vals.
Proof.
  intros Hne Hal. rewrite split_on_join.
  - rewrite map_map. rewrite <- (map_id vals) at 2. apply map_ext_in.
    intros v Hv. rewrite Forall_forall in Hal. unfold QuoteJSONString.
    rewrite (quote_body_alphanumeric v (Hal v Hv)). apply strip_quotes_quoted.
  - destruct vals; [congruence | discriminate].
  - apply Forall_forall. intros f Hf. apply in_map_iff in Hf.
    destruct Hf as (v & <- & Hv). rewrite Forall_forall in Hal.
    unfold QuoteJSONString. rewrite (quote_body_alphanumeric v (Hal v Hv)).
    simpl. rewrite in_app_iff. simpl.
    pose proof (alphanumeric_not_In COMMA v (Hal v Hv)).
    unfold COMMA, DQUOTE in *. intros [X | [X | [X | []]]]; try discriminate.
    apply H; [reflexivity | exact X].
Qed.

Lemma quoted_line_no_LF (vals : list jsstring) :
  Forall (fun v => alphanumeric v = true) vals ->
  ~ In LF (join [COMMA] (map QuoteJSONString vals)).
Proof.
  intros Hal Hin. apply join_In in Hin.
  destruct Hin as [[X | []] | (f & Hf & Hin)]; [discriminate|].
  apply in_map_iff in Hf. destruct Hf as (v & <- & Hv).
  rewrite Forall_forall in Hal. unfold QuoteJSONString in Hin.
  rewrite (quote_body_alphanumeric v (Hal v Hv)) in Hin.
  simpl in Hin. rewrite in_app_iff in Hin. simpl in Hin.
  pose proof (alphanumeric_not_In LF v (Hal v Hv)).
  unfold LF, DQUOTE in *. destruct Hin as [X | [X | [X | []]]];
    try discriminate.
  apply H; [reflexivity | exact X].
Qed.

(** The round trip on a table whose records all have the keys [keys]. *)
Lemma retokenize_csvContent (keys : list jsstring) (data : list record) :
  Forall (fun k => ~ In LF k) keys ->
  Forall (fun row => Object_keys row = keys /\
                     Object_values row <> [] /\
                     Forall (fun v => alphanumeric v = true)
                       (Object_values row)) data ->
  tl (retokenize (csvContent keys data)) = map Object_values data.
Proof.
  intros Hkeys Hdata. unfold retokenize, csvContent.
  rewrite split_on_join.
  - simpl. rewrite map_map. apply map_ext_in. intros row Hrow.
    rewrite Forall_forall in Hdata.
    destruct (Hdata row Hrow) as (Hk & Hne & Hal).
    rewrite <- Hk, csv_row_own_keys. now apply retokenize_line.
  - discriminate.
  - constructor.
    + intros Hin. apply join_In in Hin.
      destruct Hin as [[X | []] | (k & Hk & Hin)]; [discriminate|].
      rewrite Forall_forall in Hkeys. exact (Hkeys k Hk Hin).
    + apply Forall_forall. intros l Hl. apply in_map_iff in Hl.
      destruct Hl as (row & <- & Hrow). rewrite Forall_forall in Hdata.
      destruct (Hdata row Hrow) as (Hk & Hne & Hal).
      rewrite <- Hk, csv_row_own_keys. now apply quoted_line_no_LF.
Qed.


(** ** The pipeline *)

Lemma processText_Normal (toLowerCase : jsstring -> jsstring)
    (text : jsstring) (data : list record) :
  processText toLowerCase text = Normal data ->
  exists line0 rest,
    split_lines text = line0 :: rest /\
    data = process_rows (extract_headers toLowerCase line0) (line0 :: rest).
Proof.
  unfold processText. destruct (split_lines text) as [|line0 rest]; simpl;
    [discriminate|].
  intros H. inversion H. eauto.
Qed.

Lemma process_rows_In (headers lines : list jsstring) (row : record) :
  In row (process_rows headers lines) ->
  some_value row = true /\ exists line, row = build_row headers line.
Proof.
  unfold process_rows. intros H. apply filter_In in H. destruct H as [H Hs].
  split; [exact Hs|]. apply in_map_iff in H. destruct H as (line & <- & _).
  eauto.
Qed.

Lemma extract_headers_no_LF (toLowerCase : jsstring -> jsstring)
    (line0 h : jsstring) :
  In h (extract_headers toLowerCase line0) -> ~ In LF h.
Proof.
  unfold extract_headers. intros H. apply filter_In in H. destruct H as [H _].
  apply in_map_iff in H. destruct H as (seg & <- & _).
  apply no_ws_not_LF, replace_ws_no_ws.
Qed.

Lemma split_on_all_ws (s : jsstring) :
  Forall (fun seg => forallb isWhiteSpace seg = true) (split_on LF s)
  <-> forallb isWhiteSpace s = true.
Proof.
  induction s as [|c s IH]; simpl.
  - split; [reflexivity | repeat constructor].
  - destruct (N.eqb_spec c LF) as [-> | Hc].
    + simpl. rewrite <- IH. split; [intros H; now inversion H|].
      intros H. constructor; [reflexivity | exact H].
    + rewrite andb_true_iff, <- IH.
      destruct (split_on LF s) as [|seg rest]; simpl.
      * split; [intros H; inversion H as [|? ? H1 H2]; subst|].
        -- simpl in H1. rewrite andb_true_r in H1.
           split; [exact H1 | constructor].
        -- intros [H _]. repeat constructor. simpl. now rewrite H.
      * split; intros H.
        -- inversion H as [|? ? H1 H2]; subst. simpl in H1.
           apply andb_true_iff in H1. destruct H1 as [H1 H3].
           split; [exact H1|]. constructor; assumption.
        -- destruct H as [H1 H2]. inversion H2 as [|? ? H3 H4]; subst.
           constructor; [|assumption]. simpl. now rewrite H1, H3.
Qed.

Lemma filter_nil {A} (p : A -> bool) (l : list A) :
  filter p l = [] <-> Forall (fun x => p x = false) l.
Proof.
  induction l as [|x l IH]; simpl; [split; [constructor | reflexivity]|].
  destruct (p x) eqn:E.
  - split; [discriminate|]. intros H. inversion H. congruence.
  - rewrite IH. split; [now constructor | intros H; now inversion H].
Qed.

(** There is a non-blank line exactly when some code unit of the text is not
    white space. *)
Lemma split_lines_nil (text : jsstring) :
  split_lines text = [] <-> forallb isWhiteSpace text = true.
Proof.
  unfold split_lines. rewrite filter_nil, <- split_on_all_ws.
  split; intros H; (eapply Forall_impl; [|exact H]); cbv beta; intros line Hl.
  - now apply trim_nil, truthy_false.
  - now apply truthy_false, trim_nil.
Qed.

Lemma some_value_not_nil (row : record) :
  some_value row = true -> Object_values row <> [].
Proof.
  unfold some_value. destruct (Object_values row); discriminate.
Qed.

(** C1, as the code has it: a text made of white space only (the empty
    text included) has no non-blank line, so the header extraction throws a
    TypeError, which [processImage] catches, storing the error message and
    leaving the stored table as it was; any other text passes tokenization,
    header normalization and row building without an exception, and its
    table is stored. *)
Theorem processImage_outcome (toLowerCase : jsstring -> jsstring)
    (text : jsstring) (st : State) :
  (forallb isWhiteSpace text = true ->
   split_lines text = [] /\
   processText toLowerCase text = Throw TypeError /\
   processImage toLowerCase text st
   = mkState false error_message (extractedData st) 0) /\
  (forallb isWhiteSpace text = false ->
   split_lines text <> [] /\
   exists data,
     processText toLowerCase text = Normal data /\
     processImage toLowerCase text st = mkState false [] (Some data) 0).
Proof.
  unfold processImage, processText. split; intros H.
  - apply split_lines_nil in H. rewrite H. simpl. auto.
  - assert (split_lines text <> []) as Hne
        by (rewrite split_lines_nil; congruence).
    split; [exact Hne|].
    destruct (split_lines text) as [|line0 rest]; [congruence|].
    simpl. eauto.
Qed.

(** C3: exporting a table that exists and has no record throws (the
    TypeError of [Object.keys(undefined)]) and hands nothing to the download
    link. *)
Theorem export_empty_table_throws :
  exportToCSV (Some []) = Threw TypeError /\
  forall d, exportToCSV (Some []) <> Downloaded d.
Proof. split; [reflexivity | discriminate]. Qed.

(** C10: while no table is stored, the export returns at once: nothing is
    thrown and nothing is handed to the download link. *)
Theorem export_without_table_returns (st : State) :
  extractedData st = None ->
  exportToCSV (extractedData st) = Returned /\
  (forall e, exportToCSV (extractedData st) <> Threw e) /\
  (forall d, exportToCSV (extractedData st) <> Downloaded d).
Proof. intros ->. repeat split; discriminate. Qed.

(** C7: for a table that [processImage] built, that has a record and whose
    values are all alphanumeric, the lines of the exported payload after the
    header line, split on commas and stripped of their quotes, are the values
    of the records, record by record. *)
Theorem export_roundtrip (toLowerCase : jsstring -> jsstring)
    (text : jsstring) (data : list record) :
  processText toLowerCase text = Normal data ->
  data <> [] ->
  forallb (fun row => forallb alphanumeric (Object_values row)) data = true ->
  exists d,
    exportToCSV (Some data) = Downloaded d /\
    tl (retokenize (content d)) = map Object_values data.
Proof.
  intros Hp Hne Hal.
  destruct (processText_Normal _ _ _ Hp) as (line0 & rest & Hlines & Hdata).
  destruct data as [|row0 data']; [congruence|].
  eexists. split; [reflexivity|]. cbn [content].
  set (headers := extract_headers toLowerCase line0) in *.
  assert (forall row, In row (row0 :: data') ->
            Object_keys row = Object_keys row0) as Hkeys.
  { intros row Hrow.
    assert (In row0 (row0 :: data')) as H0 by (left; reflexivity).
    rewrite Hdata in Hrow, H0.
    apply process_rows_In in Hrow. destruct Hrow as (_ & line & ->).
    apply process_rows_In in H0. destruct H0 as (_ & line' & ->).
    apply Object_keys_same_keys. now rewrite !build_row_keys. }
  apply retokenize_csvContent.
  - apply Forall_forall. intros k Hk.
    assert (In row0 (row0 :: data')) as H0 by (left; reflexivity).
    rewrite Hdata in H0. apply process_rows_In in H0.
    destruct H0 as (_ & line & Hrow0). rewrite Hrow0 in Hk.
    apply build_row_keys_In in Hk. destruct Hk as [Hk _].
    exact (extract_headers_no_LF toLowerCase line0 k Hk).
  - apply Forall_forall. intros row Hrow. split; [auto|]. split.
    + apply some_value_not_nil. rewrite Hdata in Hrow.
      now apply process_rows_In in Hrow.
    + rewrite forallb_forall in Hal. specialize (Hal row Hrow).
      rewrite forallb_forall in Hal. now apply Forall_forall.
Qed.

Lemma build_row_first_value (h0 : jsstring) (hs : list jsstring)
    (line : jsstring) :
  h0 <> proto_key -> ~ In h0 hs ->
  own_lookup (build_row (h0 :: hs) line) h0 = Some (nth 0 (tokens line) []).
Proof.
  intros Hp Hin. unfold build_row.
  exact (fold_columns_lookup_last (tokens line) [] hs (0%nat, []) h0 Hp Hin).
Qed.

Lemma build_row_retained (h0 : jsstring) (hs : list jsstring)
    (line : jsstring) :
  h0 <> proto_key -> ~ In h0 hs -> truthy (trim line) = true ->
  some_value (build_row (h0 :: hs) line) = true.
Proof.
  intros Hp Hin Hline. unfold some_value. apply existsb_exists.
  exists (nth 0 (tokens line) []). split.
  - apply (Object_values_In _ h0). now apply build_row_first_value.
  - apply blank_line_tokens in Hline. pose proof (tokens_truthy line) as Ht.
    destruct (tokens line) as [|t ts]; [congruence|].
    inversion Ht; subst. assumption.
Qed.

Section Table.

Variable toLowerCase : jsstring -> jsstring.
Hypothesis lower_empty : preserves_empty toLowerCase.

(** C9, as the code has it: a text with a non-blank line has a non-empty
    header sequence; when the first header key is not [__proto__] and does
    not stand again later in the sequence, every non-blank line after the
    first gives a record of the table, so the table has one record less than
    the text has non-blank lines. *)
Theorem row_count_with_first_key_kept (text : jsstring) :
  split_lines text <> [] ->
  exists headers data,
    headers_of toLowerCase (split_lines text) = Normal headers /\
    headers <> [] /\
    processText toLowerCase text = Normal data /\
    (forall h0 hs,
        headers = h0 :: hs -> h0 <> proto_key -> ~ In h0 hs ->
        data = map (build_row headers) (tl (split_lines text)) /\
        length data = (length (split_lines text) - 1)%nat).
Proof.
  intros Hne. pose proof (split_lines_not_blank text) as Hblank.
  unfold processText.
  destruct (split_lines text) as [|line0 rest]; [congruence|].
  inversion Hblank as [|? ? H0 Hrest]; subst.
  exists (extract_headers toLowerCase line0). eexists.
  split; [reflexivity|]. split; [now apply extract_headers_not_nil|].
  split; [reflexivity|].
  intros h0 hs Hh Hp Hin. unfold process_rows. cbn [skipn tl].
  rewrite (filter_all _ rest Hrest).
  set (headers := extract_headers toLowerCase line0) in *.
  assert (filter some_value (map (build_row headers) rest)
          = map (build_row headers) rest) as ->.
  { apply filter_all. apply Forall_forall. intros row Hrow.
    apply in_map_iff in Hrow. destruct Hrow as (line & <- & Hline).
    rewrite Hh. apply build_row_retained; auto.
    rewrite Forall_forall in Hrest. auto. }
  split; [reflexivity|]. rewrite length_map. simpl. lia.
Qed.

(** C8, as the code has it: for a table of at least one record whose header
    keys are neither array indices nor [__proto__], the header line of the
    export is the comma-joined sequence of the distinct header keys in order
    of first appearance, the keys being the normalised tokens of the first
    line from left to right, and every row line gives the values of its
    record in that same order. *)
Theorem export_header_order (text : jsstring) (headers : list jsstring)
    (data : list record) :
  headers_of toLowerCase (split_lines text) = Normal headers ->
  processText toLowerCase text = Normal data ->
  data <> [] ->
  forallb (fun h => not_proto h && negb (is_array_index h)) headers = true ->
  (exists line0,
      hd_error (split_lines text) = Some line0 /\
      headers = map (normalize_header toLowerCase) (tokens line0)) /\
  (exists d,
      exportToCSV (Some data) = Downloaded d /\
      content d
      = join [LF]
          (join [COMMA] (first_occurrences headers)
           :: map (fun row =>
                     join [COMMA]
                       (map (fun h => QuoteJSONString (own_value row h))
                          (first_occurrences headers)))
                data)).
Proof.
  intros Hh Hp Hne Hok.
  destruct (processText_Normal _ _ _ Hp) as (line0 & rest & Hlines & Hdata).
  rewrite Hlines in Hh. simpl in Hh. injection Hh as Hheaders.
  rewrite Hheaders in Hdata.
  split.
  { exists line0. rewrite Hlines. split; [reflexivity|].
    rewrite <- Hheaders. now apply extract_headers_tokens. }
  assert (filter not_proto headers = headers) as Hfilter.
  { apply filter_all. apply Forall_forall. intros h Hin.
    rewrite forallb_forall in Hok. apply Hok in Hin.
    now apply andb_true_iff in Hin. }
  assert (forall row, In row data ->
            map fst row = first_occurrences headers /\
            Object_keys row = first_occurrences headers) as Hrows.
  { intros row Hrow. rewrite Hdata in Hrow. apply process_rows_In in Hrow.
    destruct Hrow as (_ & line & ->).
    assert (map fst (build_row headers line) = first_occurrences headers)
      as Hk by now rewrite build_row_keys, Hfilter.
    split; [exact Hk|]. rewrite Object_keys_no_index; [exact Hk|].
    rewrite Hk. apply Forall_forall. intros k Hin.
    apply first_occurrences_from_In in Hin. destruct Hin as [Hin _].
    rewrite forallb_forall in Hok. apply Hok in Hin.
    apply andb_true_iff in Hin. now apply negb_true_iff. }
  destruct data as [|row0 data']; [congruence|].
  eexists. split; [reflexivity|]. cbn [content]. unfold csvContent.
  destruct (Hrows row0 (or_introl eq_refl)) as [_ ->].
  f_equal. f_equal. apply map_ext_in. intros row Hrow.
  unfold csv_row. f_equal. apply map_ext_in. intros h Hin.
  apply csv_field_own. destruct (Hrows row Hrow) as [-> _]. exact Hin.
Qed.

End Table.

(** ** Quoting *)

Lemma hex_digit_ge (d : N) : 48 <= hex_digit d.
Proof. unfold hex_digit. destruct (d <? 10); lia. Qed.

Lemma unicode_escape_units (c : N) :
  Forall (fun x => 48 <= x) (unicode_escape c).
Proof.
  unfold unicode_escape, BACKSLASH.
  repeat constructor; try lia; apply hex_digit_ge.
Qed.

Ltac escape_tests :=
  unfold escape_unit, DQUOTE, BACKSLASH;
  repeat match goal with
         | |- context [if ?a =? ?b then _ else _] => destruct (N.eqb_spec a b)
         | |- context [if ?a <? ?b then _ else _] => destruct (N.ltb_spec a b)
         | |- context [if ?b || ?b' then _ else _] => destruct (b || b') eqn:?
         end.

Lemma escape_unit_ge32 (c : N) : Forall (fun x => 32 <= x) (escape_unit c).
Proof.
  escape_tests;
    try (eapply Forall_impl; [|apply unicode_escape_units];
         simpl; intros; lia);
    repeat constructor; lia.
Qed.

Lemma escape_unit_no_quote (c : N) :
  c <> DQUOTE -> ~ In DQUOTE (escape_unit c).
Proof.
  intros Hc. unfold DQUOTE in Hc.
  assert (~ In 34 (unicode_escape c)) as Hu.
  { intros Hin. pose proof (unicode_escape_units c) as H.
    rewrite Forall_forall in H. apply H in Hin. lia. }
  escape_tests; try exact Hu; simpl; intros Hin;
    repeat (destruct Hin as [Hin | Hin]; try lia; try discriminate); auto.
Qed.

Lemma quotes_escaped_no_quote (out : jsstring) :
  ~ In DQUOTE out -> quotes_escaped out.
Proof.
  intros H pre post ->. exfalso. apply H, in_elt.
Qed.

Lemma quotes_escaped_app (a b : jsstring) :
  quotes_escaped a -> quotes_escaped b -> quotes_escaped (a ++ b).
Proof.
  intros Ha Hb pre post H. apply app_eq_app in H.
  destruct H as (l & [[-> H] | [-> H]]).
  - destruct l as [|x l]; simpl in H.
    + destruct (Hb [] post) as [pre' Hp]; [now rewrite <- H|].
      destruct pre'; discriminate.
    + inversion H; subst. exact (Ha pre l eq_refl).
  - destruct (Hb l post H) as [pre' ->]. exists (a ++ pre').
    now rewrite app_assoc.
Qed.

Lemma escape_unit_quotes_escaped (c : N) : quotes_escaped (escape_unit c).
Proof.
  destruct (N.eq_dec c DQUOTE) as [-> | Hc].
  - intros pre post H.
    change (escape_unit DQUOTE) with [BACKSLASH; DQUOTE] in H.
    destruct pre as [|x [|y pre]]; try discriminate.
    + exists []. inversion H. reflexivity.
    + inversion H. destruct pre; discriminate.
  - apply quotes_escaped_no_quote. now apply escape_unit_no_quote.
Qed.

(** Induction along the cases of [quote_body]. *)
Lemma quote_body_cases (P : jsstring -> jsstring -> Prop) :
  P [] [] ->
  (forall c rest, P rest (quote_body rest) ->
                  P (c :: rest) (escape_unit c ++ quote_body rest)) ->
  (forall c d rest,
      is_high_surrogate c = true -> is_low_surrogate d = true ->
      P rest (quote_body rest) ->
      P (c :: d :: rest) (c :: d :: quote_body rest)) ->
  forall s, P s (quote_body s).
Proof.
  intros Hnil Hone Hpair s.
  assert (P s (quote_body s) /\ forall c, P (c :: s) (quote_body (c :: s)))
    as [H _]; [|exact H].
  induction s as [|d s [IH1 IH2]].
  - split; [exact Hnil|]. intros c. simpl.
    rewrite <- (app_nil_r (escape_unit c)). now apply (Hone c []).
  - split; [apply IH2|]. intros c.
    change (quote_body (c :: d :: s))
      with (if is_high_surrogate c && is_low_surrogate d
            then c :: d :: quote_body s
            else escape_unit c ++ quote_body (d :: s)).
    destruct (is_high_surrogate c) eqn:Ec, (is_low_surrogate d) eqn:Ed; simpl;
      try (apply Hone; apply IH2).
    now apply Hpair.
Qed.

Lemma quote_body_quotes_escaped (v : jsstring) : quotes_escaped (quote_body v).
Proof.
  apply (quote_body_cases (fun _ out => quotes_escaped out)).
  - apply quotes_escaped_no_quote. simpl. tauto.
  - intros c rest IH. apply quotes_escaped_app;
      [apply escape_unit_quotes_escaped | exact IH].
  - intros c d rest Hc Hd IH.
    apply (quotes_escaped_app [c; d] (quote_body rest)); [|exact IH].
    apply quotes_escaped_no_quote. unfold is_high_surrogate in Hc.
    unfold is_low_surrogate in Hd. rewrite andb_true_iff, !N.leb_le in Hc, Hd.
    unfold DQUOTE. simpl. lia.
Qed.

Lemma quote_body_ge32 (v : jsstring) :
  Forall (fun x => 32 <= x) (quote_body v).
Proof.
  apply (quote_body_cases (fun _ out => Forall (fun x => 32 <= x) out)).
  - constructor.
  - intros c rest IH. apply Forall_app. split;
      [apply escape_unit_ge32 | exact IH].
  - intros c d rest Hc Hd IH. unfold is_high_surrogate in Hc.
    unfold is_low_surrogate in Hd. rewrite andb_true_iff, !N.leb_le in Hc, Hd.
    repeat constructor; try lia. exact IH.
Qed.

Lemma quote_body_plain (v : jsstring) :
  forallb isPlain v = true -> quote_body v = v.
Proof.
  revert v.
  apply (quote_body_cases (fun s out => forallb isPlain s = true -> out = s)).
  - reflexivity.
  - intros c rest IH. simpl. rewrite andb_true_iff. intros [Hc Hrest].
    rewrite (IH Hrest). unfold isPlain in Hc.
    rewrite !andb_true_iff, !negb_true_iff, N.leb_le, !N.eqb_neq in Hc.
    destruct Hc as [[[H1 H2] H3] H4]. rewrite escape_unit_plain; auto.
    apply orb_false_iff in H4. unfold is_high_surrogate, is_low_surrogate in H4.
    rewrite !andb_false_iff, !N.leb_gt in H4. lia.
  - intros c d rest Hc _ _. simpl. unfold isPlain. rewrite Hc. simpl.
    rewrite andb_false_r. discriminate.
Qed.

(** C2, as the code has it: a data value is written between two double
    quotes; a double quote inside the value is written with a backslash in
    front of it; no code unit below 32, a line feed in particular, is
    written as it is; and a value of code units that need no escape, commas
    included, is copied unchanged. *)
Theorem csv_field_quoting (row : record) (h v : jsstring) :
  own_lookup row h = Some v ->
  csv_field row h = DQUOTE :: quote_body v ++ [DQUOTE] /\
  quotes_escaped (quote_body v) /\
  (forall c, In c (quote_body v) -> 32 <= c) /\
  (forallb isPlain v = true -> csv_field row h = DQUOTE :: v ++ [DQUOTE]) /\
  isPlain COMMA = true /\
  QuoteJSONString (js "A,B") = DQUOTE :: js "A,B" ++ [DQUOTE] /\
  QuoteJSONString (js "3" ++ [DQUOTE])
  = DQUOTE :: js "3" ++ [BACKSLASH; DQUOTE] ++ [DQUOTE].
Proof.
  intros Hv.
  assert (csv_field row h = QuoteJSONString v) as Hfield.
  { rewrite csv_field_own.
    - unfold own_value. now rewrite Hv.
    - destruct (in_dec (list_eq_dec N.eq_dec) h (map fst row)); [assumption|].
      apply own_lookup_None in n. congruence. }
  split; [exact Hfield|]. split; [apply quote_body_quotes_escaped|].
  split; [apply Forall_forall, quote_body_ge32|].
  split; [|repeat split].
  intros Hplain. rewrite Hfield. unfold QuoteJSONString.
  now rewrite quote_body_plain.
Qed.

(** ** The examples of the specification *)

Example spec_example_processed :
  processText toLowerCase_ascii spec_example_text = Normal spec_example_table.
Proof. reflexivity. Qed.

Example spec_example_exported :
  exportToCSV (Some spec_example_table)
  = Downloaded (csv_download spec_example_csv).
Proof. reflexivity. Qed.

Example ragged_example_processed :
  processText toLowerCase_ascii ragged_text
  = Normal [[(js "col1", js "only_one_value"); (js "col2", [])]].
Proof. reflexivity. Qed.

(** Every record has the header keys other than [__proto__] as its keys,
    whatever the number of tokens of its line. *)
Theorem record_keys_are_header_keys (headers : list jsstring)
    (line k : jsstring) :
  In k (Object_keys (build_row headers line))
  <-> In k headers /\ k <> proto_key.
Proof. apply build_row_keys_In. Qed.

(** ** The code on the inputs that separate it from the specification *)

(** C1: the empty text, and a text of blank lines, throw; no table results,
    and [processImage] ends in the error state. *)
Lemma empty_text_throws :
  processText toLowerCase_ascii [] = Throw TypeError /\
  processText toLowerCase_ascii (js "   " ++ [LF] ++ js " ")
  = Throw TypeError /\
  processText toLowerCase_ascii [] <> Normal [] /\
  processImage toLowerCase_ascii [] initial_state
  = mkState false error_message None 0.
Proof. repeat split; try reflexivity. discriminate. Qed.

(** C2: the value made of the digit 3 and a double quote is exported with a
    backslash in front of its double quote, not with the double quote
    written twice. *)
Lemma quote_is_backslash_escaped :
  processText toLowerCase_ascii quote_value_text = Normal quote_value_table /\
  exportToCSV (Some quote_value_table)
  = Downloaded
      (csv_download
         (js "size" ++ [LF] ++ [DQUOTE] ++ js "3"
          ++ [BACKSLASH; DQUOTE] ++ [DQUOTE])) /\
  csv_field [(js "size", js "3" ++ [DQUOTE])] (js "size")
  <> [DQUOTE] ++ js "3" ++ [DQUOTE; DQUOTE] ++ [DQUOTE].
Proof. repeat split; try reflexivity. discriminate. Qed.

(** C4: with the header keys [total; total], the key at index 0 holds the
    token at index 1. *)
Lemma duplicate_key_takes_last_token :
  extract_headers toLowerCase_ascii (js "TOTAL total")
  = [js "total"; js "total"] /\
  tokens (js "7 9") = [js "7"; js "9"] /\
  Object_get (build_row [js "total"; js "total"] (js "7 9")) (js "total")
  = JString (js "9") /\
  JString (js "9") <> JString (nth 0 (tokens (js "7 9")) []).
Proof. repeat split; try reflexivity. discriminate. Qed.

(** C5: the record of a header sequence with [__proto__] lacks that key. *)
Lemma proto_header_key_missing :
  headers_of toLowerCase_ascii (split_lines proto_key_text)
  = Normal [proto_key; js "qty"] /\
  processText toLowerCase_ascii proto_key_text
  = Normal [[(js "qty", js "7")]] /\
  Object_keys [(js "qty", js "7")] = [js "qty"] /\
  ~ In proto_key (Object_keys [(js "qty", js "7")]).
Proof.
  repeat split; try reflexivity. simpl. intros [H | []]. discriminate.
Qed.

(** C8: the header sequence [item; 2020] is exported as [2020,item], with
    the values of the row in that order; the header sequence [total; total]
    is exported as the one key [total]; and a text of a header line alone
    gives a table whose export throws. *)
Lemma export_order_differs :
  (headers_of toLowerCase_ascii (split_lines index_key_text)
   = Normal [js "item"; js "2020"] /\
   processText toLowerCase_ascii index_key_text = Normal index_key_table /\
   exportToCSV (Some index_key_table)
   = Downloaded (csv_download index_key_csv) /\
   index_key_csv <> csvContent [js "item"; js "2020"] index_key_table) /\
  (headers_of toLowerCase_ascii (split_lines duplicate_key_text)
   = Normal [js "total"; js "total"] /\
   exportToCSV (Some [build_row [js "total"; js "total"] (js "7 9")])
   = Downloaded
       (csv_download
          (js "total" ++ [LF] ++ [DQUOTE] ++ js "9" ++ [DQUOTE]))) /\
  (processText toLowerCase_ascii (js "ITEM QTY") = Normal [] /\
   exportToCSV (Some []) = Threw TypeError).
Proof. repeat split; try reflexivity. discriminate. Qed.

(** C9: two non-blank lines, a non-empty header sequence, and no record. *)
Lemma duplicate_key_drops_row :
  length (split_lines duplicate_key_text) = 2%nat /\
  headers_of toLowerCase_ascii (split_lines duplicate_key_text)
  = Normal [js "total"; js "total"] /\
  processText toLowerCase_ascii duplicate_key_text = Normal [].
Proof. repeat split; reflexivity. Qed.

(** ** The theorems at the example of the specification *)

Lemma processImage_outcome_example :
  split_lines spec_example_text <> [] /\
  exists data,
    processText toLowerCase_ascii spec_example_text = Normal data /\
    processImage toLowerCase_ascii spec_example_text initial_state
    = mkState false [] (Some data) 0.
Proof.
  apply (proj2 (processImage_outcome toLowerCase_ascii spec_example_text
                  initial_state)).
  reflexivity.
Defined.

Lemma csv_field_quoting_example :
  csv_field [(js "part", js "A,B")] (js "part")
  = DQUOTE :: js "A,B" ++ [DQUOTE].
Proof.
  destruct (csv_field_quoting [(js "part", js "A,B")] (js "part") (js "A,B")
              eq_refl) as (_ & _ & _ & H & _).
  apply H. reflexivity.
Defined.

Lemma build_row_positional_example :
  Object_get (build_row [js "name"; js "age"; js "city"] (js "John 30"))
    (js "city") = JString [].
Proof.
  destruct (build_row_positional [js "name"; js "age"; js "city"]
              (js "John 30") 2 (js "city")) as (_ & H & _).
  - reflexivity.
  - discriminate.
  - intros [|[|[|[|j]]]] Hj; try lia; discriminate.
  - apply H. simpl. lia.
Defined.

Lemma export_roundtrip_example :
  exists d,
    exportToCSV (Some spec_example_table) = Downloaded d /\
    tl (retokenize (content d)) = map Object_values spec_example_table.
Proof.
  apply (export_roundtrip toLowerCase_ascii spec_example_text).
  - reflexivity.
  - discriminate.
  - reflexivity.
Defined.

Lemma export_header_order_example :
  (exists line0,
      hd_error (split_lines spec_example_text) = Some line0 /\
      [js "name"; js "age"; js "city"]
      = map (normalize_header toLowerCase_ascii) (tokens line0)) /\
  (exists d,
      exportToCSV (Some spec_example_table) = Downloaded d /\
      content d
      = join [LF]
          (join [COMMA] (first_occurrences [js "name"; js "age"; js "city"])
           :: map (fun row =>
                     join [COMMA]
                       (map (fun h => QuoteJSONString (own_value row h))
                          (first_occurrences
                             [js "name"; js "age"; js "city"])))
                spec_example_table)).
Proof.
  apply (export_header_order toLowerCase_ascii
           toLowerCase_ascii_preserves_empty spec_example_text).
  - reflexivity.
  - reflexivity.
  - discriminate.
  - reflexivity.
Defined.

Lemma row_count_example :
  exists headers data,
    headers_of toLowerCase_ascii (split_lines spec_example_text)
    = Normal headers /\
    headers <> [] /\
    processText toLowerCase_ascii spec_example_text = Normal data /\
    (forall h0 hs,
        headers = h0 :: hs -> h0 <> proto_key -> ~ In h0 hs ->
        data = map (build_row headers) (tl (split_lines spec_example_text)) /\
        length data = (length (split_lines spec_example_text) - 1)%nat).
Proof.
  apply (row_count_with_first_key_kept toLowerCase_ascii
           toLowerCase_ascii_preserves_empty spec_example_text).
  discriminate.
Defined.

Lemma export_without_table_example :
  exportToCSV (extractedData initial_state) = Returned /\
  (forall e, exportToCSV (extractedData initial_state) <> Threw e) /\
  (forall d, exportToCSV (extractedData initial_state) <> Downloaded d).
Proof. apply (export_without_table_returns initial_state). reflexivity. Defined.

(** * Further properties of the code *)

(** ** Lines and tokens *)

Lemma split_on_cons (sep : N) (s : jsstring) :
  exists seg rest, split_on sep s = seg :: rest.
Proof.
  induction s as [|c s (seg & rest & IH)]; simpl; eauto.
  destruct (c =? sep); eauto. rewrite IH. simpl. eauto.
Qed.

Lemma split_on_sep_app (sep : N) (a b : jsstring) :
  split_on sep (a ++ sep :: b) = split_on sep a ++ split_on sep b.
Proof.
  induction a as [|c a IH]; simpl.
  - now rewrite N.eqb_refl.
  - destruct (c =? sep); rewrite IH; [reflexivity|].
    destruct (split_on_cons sep a) as (seg & rest & ->). reflexivity.
Qed.

(** The lines of two texts joined by a line feed are the lines of the first
    followed by the lines of the second. *)
Theorem split_lines_app (a b : jsstring) :
  split_lines (a ++ LF :: b) = split_lines a ++ split_lines b.
Proof.
  unfold split_lines. now rewrite split_on_sep_app, filter_app.
Qed.

(** White space around a text, separated from it by line feeds, changes
    neither the table nor the exception: blank lines in front and behind,
    a final line feed in particular, are ignored. *)
Theorem processText_blank_padding (toLowerCase : jsstring -> jsstring)
    (before text after : jsstring) :
  forallb isWhiteSpace before = true ->
  forallb isWhiteSpace after = true ->
  processText toLowerCase (before ++ LF :: text ++ LF :: after)
  = processText toLowerCase text.
Proof.
  intros Hb Ha. unfold processText.
  rewrite !split_lines_app.
  apply split_lines_nil in Hb. apply split_lines_nil in Ha.
  now rewrite Hb, Ha, app_nil_r.
Qed.

Lemma maximal_runs_ws_app (a b : jsstring) (w : N) :
  isWhiteSpace w = true ->
  maximal_runs (a ++ w :: b) = maximal_runs a ++ maximal_runs b.
Proof.
  intros Hw. induction a as [|c a IH]; simpl.
  - now rewrite Hw.
  - destruct (isWhiteSpace c) eqn:Ec; [exact IH|].
    destruct a as [|d a'].
    + simpl. rewrite Hw. reflexivity.
    + change ((d :: a') ++ w :: b) with (d :: (a' ++ w :: b)) in *.
      cbn [starts_ws truthy negb orb]. rewrite orb_false_r.
      destruct (isWhiteSpace d) eqn:Ed.
      * now rewrite IH.
      * rewrite IH.
        assert (maximal_runs (d :: a') <> []) as Hne.
        { rewrite maximal_runs_nil. simpl. now rewrite Ed. }
        destruct (maximal_runs (d :: a')); [congruence | reflexivity].
Qed.

(** The tokens of two pieces of a line joined by one white space code unit
    are the tokens of the first piece followed by those of the second. *)
Theorem tokens_app (a b : jsstring) (w : N) :
  isWhiteSpace w = true -> tokens (a ++ w :: b) = tokens a ++ tokens b.
Proof.
  intros Hw. rewrite !tokens_maximal_runs. now apply maximal_runs_ws_app.
Qed.

Lemma maximal_runs_single (t : jsstring) :
  t <> [] -> no_ws t = true -> maximal_runs t = [t].
Proof.
  induction t as [|c t IH]; [congruence|]. intros _ H. simpl in H.
  apply andb_true_iff in H. destruct H as [Hc Ht].
  apply negb_true_iff in Hc. simpl. rewrite Hc.
  destruct t as [|d t']; [reflexivity|].
  simpl in Ht. apply andb_true_iff in Ht. destruct Ht as [Hd Ht'].
  apply negb_true_iff in Hd. cbn [starts_ws truthy negb orb]. rewrite Hd.
  simpl orb. cbv iota. rewrite IH; [reflexivity | discriminate|].
  simpl. now rewrite Hd.
Qed.

(** Tokenizing undoes joining with single spaces: a sequence of non-empty
    strings without white space, joined by spaces, has these strings as its
    tokens. *)
Theorem tokens_join_spaces (ts : list jsstring) :
  Forall (fun t => t <> [] /\ no_ws t = true) ts ->
  tokens (join [32] ts) = ts.
Proof.
  induction 1 as [|t ts [Hne Hws] Hts IH]; [reflexivity|].
  destruct ts as [|u ts'].
  - simpl. rewrite tokens_maximal_runs. now apply maximal_runs_single.
  - change (join [32] (t :: u :: ts')) with (t ++ 32 :: join [32] (u :: ts')).
    rewrite tokens_app by reflexivity. rewrite IH.
    rewrite tokens_maximal_runs, maximal_runs_single by assumption.
    reflexivity.
Qed.

(** ** Keys and cells *)

(** Whatever the case mapping does, a header key is not empty and holds no
    white space, so no line break either. *)
Theorem header_keys_well_formed (toLowerCase : jsstring -> jsstring)
    (line0 h : jsstring) :
  In h (extract_headers toLowerCase line0) ->
  h <> [] /\ no_ws h = true /\ ~ In LF h.
Proof.
  intros H. split; [|split].
  - unfold extract_headers in H. apply filter_In in H.
    now apply truthy_true.
  - unfold extract_headers in H. apply filter_In in H. destruct H as [H _].
    apply in_map_iff in H. destruct H as (seg & <- & _).
    apply replace_ws_no_ws.
  - exact (extract_headers_no_LF toLowerCase line0 h H).
Qed.

Lemma Object_set_In (row : record) (k v k0 v0 : jsstring) :
  In (k0, v0) (Object_set row k v) -> In (k0, v0) row \/ v0 = v.
Proof.
  unfold Object_set. destruct (jsstring_eqb k proto_key); [auto|].
  destruct (own_lookup row k).
  - induction row as [|[k1 v1] row IH]; simpl; [tauto|].
    destruct (jsstring_eqb k1 k); simpl.
    + intros [H | H]; [inversion H; auto | auto].
    + intros [H | H]; [auto|]. destruct (IH H); auto.
  - rewrite in_app_iff. simpl. intros [H | [H | []]]; [auto|].
    inversion H. auto.
Qed.

Lemma own_lookup_In (row : record) (k v : jsstring) :
  own_lookup row k = Some v -> In (k, v) row.
Proof.
  induction row as [|[k1 v1] row IH]; simpl; [discriminate|].
  destruct (jsstring_eqb k1 k) eqn:E.
  - apply jsstring_eqb_eq in E. subst. intros H. inversion H. auto.
  - auto.
Qed.

Lemma fold_columns_values (values hs : list jsstring) (acc : nat * record)
    (k v : jsstring) :
  In (k, v) (snd (fold_left (set_column values) hs acc)) ->
  In (k, v) (snd acc) \/ v = [] \/ In v values.
Proof.
  revert acc; induction hs as [|h hs IH]; intros acc; simpl; [auto|].
  intros H. apply IH in H. destruct H as [H | H]; [|auto].
  rewrite set_column_snd in H. apply Object_set_In in H.
  destruct H as [H | ->]; [auto|]. right.
  destruct (nth_in_or_default (fst acc) values []); auto.
Qed.

Lemma Object_values_own (row : record) (v : jsstring) :
  In v (Object_values row) -> exists k, own_lookup row k = Some v.
Proof.
  unfold Object_values. intros H. apply in_map_iff in H.
  destruct H as (k & <- & Hk). apply Object_keys_In in Hk.
  destruct (own_lookup_Some row k Hk) as [v Hv].
  exists k. unfold own_value. now rewrite Hv.
Qed.

(** Every cell of the table is the empty string or one token of a non-blank
    line after the first; a cell never holds white space. *)
Theorem table_cells_are_tokens (toLowerCase : jsstring -> jsstring)
    (text : jsstring) (data : list record) (row : record) (v : jsstring) :
  processText toLowerCase text = Normal data ->
  In row data -> In v (Object_values row) ->
  no_ws v = true /\
  (v = [] \/
   exists line, In line (tl (split_lines text)) /\ In v (tokens line)).
Proof.
  intros Hp Hrow Hv.
  destruct (processText_Normal _ _ _ Hp) as (line0 & rest & Hlines & ->).
  unfold process_rows in Hrow. apply filter_In in Hrow.
  destruct Hrow as [Hrow _]. apply in_map_iff in Hrow.
  destruct Hrow as (line & <- & Hline). apply filter_In in Hline.
  destruct Hline as [Hline _]. simpl in Hline.
  apply Object_values_own in Hv. destruct Hv as [k Hk].
  apply own_lookup_In in Hk. unfold build_row in Hk.
  apply fold_columns_values in Hk. simpl in Hk.
  destruct Hk as [[] | [-> | Hin]].
  - split; [reflexivity | auto].
  - split.
    + pose proof (tokens_no_ws line) as H. rewrite Forall_forall in H. auto.
    + right. exists line. rewrite Hlines. simpl. auto.
Qed.

Lemma insert_index_Permutation (n : N) (k : jsstring)
    (l : list (N * jsstring)) :
  Permutation (map snd (insert_index n k l)) (k :: map snd l).
Proof.
  induction l as [|[m k'] l IH]; simpl; [reflexivity|].
  destruct (n <=? m); simpl; [reflexivity|].
  rewrite IH. apply perm_swap.
Qed.

Lemma index_keys_Permutation (keys : list jsstring) :
  Permutation (map snd (index_keys keys)) (filter is_array_index keys).
Proof.
  unfold is_array_index. induction keys as [|k keys IH]; simpl; [reflexivity|].
  destruct (array_index k); [|exact IH].
  rewrite insert_index_Permutation. now constructor.
Qed.

Lemma filter_partition_Permutation {A} (p : A -> bool) (l : list A) :
  Permutation (filter p l ++ filter (fun x => negb (p x)) l) l.
Proof.
  induction l as [|x l IH]; simpl; [reflexivity|].
  destruct (p x); simpl.
  - now constructor.
  - rewrite <- Permutation_middle. now constructor.
Qed.

(** [Object.keys] rearranges the own keys: none is lost, none is added. *)
Lemma Object_keys_Permutation (row : record) :
  Permutation (Object_keys row) (map fst row).
Proof.
  unfold Object_keys, OrdinaryOwnPropertyKeys.
  rewrite index_keys_Permutation. apply filter_partition_Permutation.
Qed.

Lemma first_occurrences_from_distinct (seen keys : list jsstring) :
  NoDup (first_occurrences_from seen keys).
Proof.
  revert seen; induction keys as [|k keys IH]; intros seen; simpl;
    [constructor|].
  destruct (existsb (jsstring_eqb k) seen); [apply IH|].
  constructor; [|apply IH].
  intros H. apply first_occurrences_from_In in H. destruct H as [_ H].
  apply H, in_app_iff. simpl. auto.
Qed.

Lemma build_row_keys_distinct (headers : list jsstring) (line : jsstring) :
  NoDup (Object_keys (build_row headers line)).
Proof.
  apply (Permutation_NoDup (Permutation_sym (Object_keys_Permutation _))).
  rewrite build_row_keys. apply first_occurrences_from_distinct.
Qed.

(** All records of a table have one and the same sequence of keys, in which
    no key stands twice, and so the same number of values. *)
Theorem table_keys_uniform (toLowerCase : jsstring -> jsstring)
    (text : jsstring) (data : list record) :
  processText toLowerCase text = Normal data ->
  exists keys,
    NoDup keys /\
    forall row, In row data ->
                Object_keys row = keys /\
                length (Object_values row) = length keys.
Proof.
  intros Hp.
  destruct (processText_Normal _ _ _ Hp) as (line0 & rest & _ & ->).
  exists (Object_keys (build_row (extract_headers toLowerCase line0) [])).
  split; [apply build_row_keys_distinct|].
  intros row Hrow. apply process_rows_In in Hrow.
  destruct Hrow as (_ & line & ->).
  assert (Object_keys (build_row (extract_headers toLowerCase line0) line)
          = Object_keys (build_row (extract_headers toLowerCase line0) []))
    as Hk by (apply Object_keys_same_keys; now rewrite !build_row_keys).
  split; [exact Hk|]. unfold Object_values. now rewrite length_map, Hk.
Qed.

(** ** The payload *)

Lemma QuoteJSONString_no_LF (v : jsstring) : ~ In LF (QuoteJSONString v).
Proof.
  unfold QuoteJSONString. simpl. rewrite in_app_iff. simpl.
  intros [H | [H | [H | []]]]; try discriminate.
  pose proof (quote_body_ge32 v) as Hge. rewrite Forall_forall in Hge.
  apply Hge in H. unfold LF in H. lia.
Qed.

Lemma csv_field_no_LF (row : record) (h : jsstring) :
  ~ In LF (csv_field row h).
Proof.
  unfold csv_field.
  destruct (Object_get row h) as [|v| |];
    cbn [or_empty JSON_stringify join_element].
  - apply QuoteJSONString_no_LF.
  - destruct v; apply QuoteJSONString_no_LF.
  - simpl. tauto.
  - simpl. intros [H | [H | []]]; discriminate.
Qed.

Lemma csv_row_no_LF (keys : list jsstring) (row : record) :
  ~ In LF (csv_row keys row).
Proof.
  unfold csv_row. intros H. apply join_In in H.
  destruct H as [[H | []] | (f & Hf & H)]; [discriminate|].
  apply in_map_iff in Hf. destruct Hf as (h & <- & _).
  exact (csv_field_no_LF row h H).
Qed.

Lemma csvContent_lines (toLowerCase : jsstring -> jsstring)
    (text : jsstring) (row0 : record) (rows : list record) :
  processText toLowerCase text = Normal (row0 :: rows) ->
  split_on LF (csvContent (Object_keys row0) (row0 :: rows))
  = join [COMMA] (Object_keys row0)
    :: map (csv_row (Object_keys row0)) (row0 :: rows).
Proof.
  intros Hp. unfold csvContent. apply split_on_join; [discriminate|].
  constructor.
  - intros H. apply join_In in H.
    destruct H as [[H | []] | (k & Hk & H)]; [discriminate|].
    destruct (processText_Normal _ _ _ Hp) as (line0 & rest & _ & Hdata).
    assert (In row0 (row0 :: rows)) as H0 by (left; reflexivity).
    rewrite Hdata in H0. apply process_rows_In in H0.
    destruct H0 as (_ & line & ->). apply build_row_keys_In in Hk.
    destruct Hk as [Hk _].
    exact (extract_headers_no_LF toLowerCase line0 k Hk H).
  - apply Forall_forall. intros l Hl. apply in_map_iff in Hl.
    destruct Hl as (row & <- & _). apply csv_row_no_LF.
Qed.

(** The payload of a table has one line for the keys and one line for each
    record, whatever code units the values hold: split at the line feeds,
    it gives back the header line and the row lines. *)
Theorem export_one_line_per_record (toLowerCase : jsstring -> jsstring)
    (text : jsstring) (row0 : record) (rows : list record) :
  processText toLowerCase text = Normal (row0 :: rows) ->
  exists d,
    exportToCSV (Some (row0 :: rows)) = Downloaded d /\
    split_on LF (content d)
    = join [COMMA] (Object_keys row0)
      :: map (csv_row (Object_keys row0)) (row0 :: rows) /\
    length (split_on LF (content d)) = S (length (row0 :: rows)).
Proof.
  intros Hp. eexists. split; [reflexivity|]. cbn [content].
  rewrite (csvContent_lines _ _ _ _ Hp).
  split; [reflexivity|]. simpl. now rewrite length_map.
Qed.

(** ** Quoting loses nothing *)

Lemma hex_value_digit (d : N) : d < 16 -> hex_value (hex_digit d) = d.
Proof.
  intros H. unfold hex_value, hex_digit.
  destruct (N.ltb_spec d 10).
  - destruct (N.ltb_spec (48 + d) 58); lia.
  - destruct (N.ltb_spec (87 + d) 58); lia.
Qed.

Lemma unquote_unicode_escape (c : N) (out : jsstring) :
  c < 65536 -> unquote_body (unicode_escape c ++ out) = c :: unquote_body out.
Proof.
  intros Hc. unfold unicode_escape.
  cbn [app unquote_body]. unfold BACKSLASH.
  change (92 =? 92) with true. change (117 =? 117) with true. cbv iota.
  rewrite !hex_value_digit by (apply N.mod_lt; discriminate).
  f_equal. zify. Z.to_euclidean_division_equations. lia.
Qed.

Lemma unquote_escape_unit (c : N) (out : jsstring) :
  unquote_body (escape_unit c ++ out) = c :: unquote_body out.
Proof.
  unfold escape_unit, DQUOTE, BACKSLASH.
  destruct (N.eqb_spec c 8) as [-> | H8]; [reflexivity|].
  destruct (N.eqb_spec c 9) as [-> | H9]; [reflexivity|].
  destruct (N.eqb_spec c 10) as [-> | H10]; [reflexivity|].
  destruct (N.eqb_spec c 12) as [-> | H12]; [reflexivity|].
  destruct (N.eqb_spec c 13) as [-> | H13]; [reflexivity|].
  destruct (N.eqb_spec c 34) as [-> | H34]; [reflexivity|].
  destruct (N.eqb_spec c 92) as [-> | H92]; [reflexivity|].
  destruct (N.ltb_spec c 32) as [Hlt | Hge].
  { apply unquote_unicode_escape. lia. }
  destruct (is_high_surrogate c || is_low_surrogate c) eqn:Es.
  { apply unquote_unicode_escape.
    unfold is_high_surrogate, is_low_surrogate in Es.
    rewrite orb_true_iff, !andb_true_iff, !N.leb_le in Es. lia. }
  cbn [app unquote_body]. unfold BACKSLASH.
  destruct (N.eqb_spec c 92); [contradiction | reflexivity].
Qed.

Lemma unquote_quote_body (v : jsstring) : unquote_body (quote_body v) = v.
Proof.
  apply (quote_body_cases (fun s out => unquote_body out = s)).
  - reflexivity.
  - intros c rest IH. now rewrite unquote_escape_unit, IH.
  - intros c d rest Hc Hd IH.
    unfold is_high_surrogate in Hc. unfold is_low_surrogate in Hd.
    rewrite andb_true_iff, !N.leb_le in Hc, Hd.
    cbn [unquote_body]. unfold BACKSLASH.
    destruct (N.eqb_spec c 92); [lia|]. destruct (N.eqb_spec d 92); [lia|].
    now rewrite IH.
Qed.

(** Two values that are written as the same quoted field are the same
    value: the quoting of the export loses nothing. *)
Theorem QuoteJSONString_injective (v w : jsstring) :
  QuoteJSONString v = QuoteJSONString w <-> v = w.
Proof.
  split; [|now intros ->].
  unfold QuoteJSONString. intros H. inversion H as [Hbody].
  apply app_inv_tail in Hbody.
  rewrite <- (unquote_quote_body v), <- (unquote_quote_body w).
  now rewrite Hbody.
Qed.

(** ** The upload handler *)

Lemma starts_with_prefix (s sub : jsstring) :
  starts_with s sub = true <-> exists post, s = sub ++ post.
Proof.
  revert s; induction sub as [|c sub IH]; intros s.
  - split; [intros _; exists s; reflexivity | intros _; now destruct s].
  - destruct s as [|d s]; simpl.
    + split; [discriminate | intros [post H]; discriminate].
    + rewrite andb_true_iff, N.eqb_eq, IH. split.
      * intros [-> [post ->]]. eauto.
      * intros [post H]. inversion H. eauto.
Qed.

Lemma includes_substring (s sub : jsstring) :
  includes s sub = true <-> exists pre post, s = pre ++ sub ++ post.
Proof.
  induction s as [|d s IH]; cbn [includes].
  - rewrite orb_false_r, starts_with_prefix. split.
    + intros [post H]. exists [], post. exact H.
    + intros (pre & post & H). destruct pre; [eauto | discriminate].
  - rewrite orb_true_iff, starts_with_prefix, IH. split.
    + intros [[post H] | (pre & post & ->)].
      * exists [], post. exact H.
      * exists (d :: pre), post. reflexivity.
    + intros (pre & post & H). destruct pre as [|x pre].
      * left. eauto.
      * right. inversion H. eauto.
Qed.

(** A chosen file is handed to [processImage], the state untouched, exactly
    when its type holds [image/] somewhere; any other file is refused: the
    error text is set and nothing else of the state changes. *)
Theorem handleFileUpload_outcome (f : File) (st : State) :
  ((exists pre post, file_type f = pre ++ js "image/" ++ post) /\
   handleFileUpload (Some f) st = (st, Some f)) \/
  (~ (exists pre post, file_type f = pre ++ js "image/" ++ post) /\
   handleFileUpload (Some f) st
   = (mkState (isProcessing st) upload_error_message (extractedData st)
        (progress st), None)).
Proof.
  unfold handleFileUpload.
  destruct (includes (file_type f) (js "image/")) eqn:E.
  - left. split; [now apply includes_substring | reflexivity].
  - right. split; [|reflexivity]. intros H.
    apply includes_substring in H. congruence.
Qed.

(** ** The component *)

Section ComponentProperties.

Variable toLowerCase : jsstring -> jsstring.
Variable toUpperCase : jsstring -> jsstring.

Lemma upload_rendered_iff (st : State) :
  upload_rendered toUpperCase st = true
  <-> isProcessing st = false /\ extractedData st = None.
Proof.
  unfold upload_rendered, render.
  destruct (extractedData st) as [[|row0 rows]|]; simpl.
  - split; [discriminate | intros [_ H]; discriminate].
  - rewrite andb_false_r. split; [discriminate | intros [_ H]; discriminate].
  - rewrite andb_true_r, negb_true_iff. tauto.
Qed.

Lemma reachable_states (st : State) :
  reachable toLowerCase toUpperCase st ->
  (isProcessing st = true -> error st = [] /\ extractedData st = None) /\
  (forall data, extractedData st = Some data ->
                error st = [] /\ isProcessing st = false).
Proof.
  induction 1 as [|st st' e Hreach [IH1 IH2] Hstep].
  - split; [discriminate | discriminate].
  - destruct e as [file | r |]; simpl in Hstep.
    + destruct (upload_rendered toUpperCase st) eqn:Hup; [|discriminate].
      apply upload_rendered_iff in Hup. destruct Hup as [Hidle Hnone].
      unfold handleFileUpload in Hstep. destruct file as [f|].
      * destruct (includes (file_type f) (js "image/"));
          inversion Hstep; subst; simpl; rewrite ?Hnone, ?Hidle;
          (split; [auto | discriminate]).
        intros H. discriminate.
      * inversion Hstep; subst. auto.
    + destruct (isProcessing st) eqn:Hrun; [|discriminate].
      destruct (IH1 eq_refl) as [_ Hnone].
      inversion Hstep; subst. destruct r as [text|]; simpl.
      * unfold processImage. destruct (processText toLowerCase text); simpl.
        -- split; [discriminate | auto].
        -- rewrite Hnone. split; discriminate.
      * rewrite Hnone. split; discriminate.
    + destruct (export_rendered toUpperCase st); inversion Hstep; subst.
      auto.
Qed.

(** In every state the component can be in: while an image is processed, no
    error text and no table are stored; and once a table is stored, there is
    no error text and no image is being processed. *)
Theorem component_invariant (st : State) :
  reachable toLowerCase toUpperCase st ->
  (isProcessing st = true -> error st = [] /\ extractedData st = None) /\
  (forall data, extractedData st = Some data ->
                error st = [] /\ isProcessing st = false).
Proof. apply reachable_states. Qed.

(** A stored table is final: in a state the component can be in that holds
    a table, no event changes the state any more (no further image can be
    chosen, and the export leaves the state as it is). *)
Theorem stored_table_is_final (st st' : State) (data : list record)
    (e : event) :
  reachable toLowerCase toUpperCase st ->
  extractedData st = Some data ->
  dispatch toLowerCase toUpperCase e st = Some st' ->
  st' = st.
Proof.
  intros Hreach Hdata Hstep.
  destruct (proj2 (reachable_states st Hreach) data Hdata) as [_ Hidle].
  destruct e as [file | r |]; simpl in Hstep.
  - destruct (upload_rendered toUpperCase st) eqn:Hup; [|discriminate].
    apply upload_rendered_iff in Hup. destruct Hup as [_ Hnone]. congruence.
  - rewrite Hidle in Hstep. discriminate.
  - destruct (export_rendered toUpperCase st); congruence.
Qed.

Lemma one_line_no_rows (text : jsstring) :
  length (split_lines text) = 1%nat ->
  processText toLowerCase text = Normal [].
Proof.
  unfold processText. destruct (split_lines text) as [|line0 [|line1 rest]];
    try discriminate.
  reflexivity.
Qed.

(** Wherever the upload control is rendered, choosing an image file and
    then the recognition of a text with exactly one non-blank line can both
    happen, and they leave the component in a state it cannot show: the
    stored table has no record, rendering throws a TypeError, and no event
    can happen any more. *)
Theorem header_only_text_breaks_render (f : File) (text : jsstring)
    (st0 : State) :
  reachable toLowerCase toUpperCase st0 ->
  upload_rendered toUpperCase st0 = true ->
  includes (file_type f) (js "image/") = true ->
  length (split_lines text) = 1%nat ->
  exists st,
    run toLowerCase toUpperCase
      [ChooseFile (Some f); RecognitionDone (Recognized text)] st0
    = Some st /\
    st = processImage toLowerCase text (processImage_start st0) /\
    reachable toLowerCase toUpperCase st /\
    extractedData st = Some [] /\
    render toUpperCase st = Throw TypeError /\
    forall e, dispatch toLowerCase toUpperCase e st = None.
Proof.
  intros Hreach Hup Hf Hone.
  assert (dispatch toLowerCase toUpperCase (ChooseFile (Some f)) st0
          = Some (processImage_start st0)) as Hstep1.
  { simpl. rewrite Hup. unfold handleFileUpload. now rewrite Hf. }
  assert (dispatch toLowerCase toUpperCase (RecognitionDone (Recognized text))
            (processImage_start st0)
          = Some (processImage toLowerCase text (processImage_start st0)))
    as Hstep2 by reflexivity.
  assert (processImage toLowerCase text (processImage_start st0)
          = mkState false [] (Some []) 0) as Hst
    by (unfold processImage; now rewrite one_line_no_rows).
  exists (processImage toLowerCase text (processImage_start st0)).
  split; [|split; [reflexivity|split]].
  - cbn [run]. rewrite Hstep1. cbn [run]. now rewrite Hstep2.
  - apply (reachable_step _ _ (processImage_start st0) _
             (RecognitionDone (Recognized text))); [|exact Hstep2].
    now apply (reachable_step _ _ st0 _ (ChooseFile (Some f))).
  - rewrite Hst. repeat split. intros [file | r |]; reflexivity.
Qed.

(** A table with a record is shown as a rectangle, without the upload
    control, the progress indicator or the error box: one body row for each
    record, and in each body row as many cells as the head row has. *)
Theorem rendered_table_rectangular (text : jsstring) (st : State)
    (row0 : record) (rows : list record) :
  processText toLowerCase text = Normal (row0 :: rows) ->
  exists t,
    render toUpperCase (processImage toLowerCase text st)
    = Normal (mkView false None None (Some t)) /\
    length (body_rows t) = length (row0 :: rows) /\
    Forall (fun cells => length cells = length (head_cells t)) (body_rows t).
Proof.
  intros Hp. unfold processImage. rewrite Hp. unfold render. simpl.
  eexists. split; [reflexivity|]. cbn [body_rows head_cells]. split.
  - simpl. now rewrite length_map.
  - change (Object_values row0 :: map Object_values rows)
      with (map Object_values (row0 :: rows)).
    apply Forall_forall. intros cells Hc. apply in_map_iff in Hc.
    destruct Hc as (row & <- & Hrow).
    destruct (processText_Normal _ _ _ Hp) as (line0 & rest & _ & Hdata).
    assert (In row0 (row0 :: rows)) as H0 by (left; reflexivity).
    rewrite Hdata in Hrow, H0.
    apply process_rows_In in Hrow. destruct Hrow as (_ & line & ->).
    apply process_rows_In in H0. destruct H0 as (_ & line' & ->).
    unfold Object_values. rewrite !length_map. f_equal.
    apply Object_keys_same_keys. now rewrite !build_row_keys.
Qed.

(** What is exported is what is shown: the lines of the payload after the
    header line are, row by row, the cells of the shown table, each quoted,
    joined by commas; and the header line joins the keys whose display forms
    head the table. *)
Theorem shown_cells_are_exported (text : jsstring) (st : State)
    (row0 : record) (rows : list record) :
  processText toLowerCase text = Normal (row0 :: rows) ->
  exists t d,
    render toUpperCase (processImage toLowerCase text st)
    = Normal (mkView false None None (Some t)) /\
    exportToCSV (extractedData (processImage toLowerCase text st))
    = Downloaded d /\
    head_cells t = map (display_header toUpperCase) (Object_keys row0) /\
    split_on LF (content d)
    = join [COMMA] (Object_keys row0)
      :: map (fun cells => join [COMMA] (map QuoteJSONString cells))
           (body_rows t).
Proof.
  intros Hp. unfold processImage. rewrite Hp. unfold render. simpl.
  eexists. eexists. split; [reflexivity|]. split; [reflexivity|].
  split; [reflexivity|]. cbn [content body_rows].
  rewrite (csvContent_lines _ _ _ _ Hp). f_equal.
  change (Object_values row0 :: map Object_values rows)
    with (map Object_values (row0 :: rows)).
  rewrite map_map. apply map_ext_in. intros row Hrow.
  rewrite <- csv_row_own_keys. f_equal.
  destruct (processText_Normal _ _ _ Hp) as (line0 & rest & _ & Hdata).
  assert (In row0 (row0 :: rows)) as H0 by (left; reflexivity).
  rewrite Hdata in Hrow, H0.
  apply process_rows_In in Hrow. destruct Hrow as (_ & line & ->).
  apply process_rows_In in H0. destruct H0 as (_ & line' & ->).
  apply Object_keys_same_keys. now rewrite !build_row_keys.
Qed.

End ComponentProperties.

(** ** The further properties at examples *)

Lemma example_run_reachable :
  reachable toLowerCase_ascii toUpperCase_ascii
    (mkState false [] (Some spec_example_table) 0).
Proof.
  apply (reachable_step _ _ (processImage_start initial_state) _
           (RecognitionDone (Recognized spec_example_text)));
    [|reflexivity].
  apply (reachable_step _ _ initial_state _ (ChooseFile (Some png_file)));
    [constructor | reflexivity].
Qed.

Lemma processText_blank_padding_example :
  processText toLowerCase_ascii
    (js "  " ++ LF :: spec_example_text ++ LF :: js " ")
  = processText toLowerCase_ascii spec_example_text.
Proof.
  apply (processText_blank_padding toLowerCase_ascii (js "  ")
           spec_example_text (js " ")); reflexivity.
Defined.

Lemma tokens_app_example :
  tokens (js "John" ++ 32 :: js "30") = tokens (js "John") ++ tokens (js "30").
Proof. apply (tokens_app (js "John") (js "30") 32). reflexivity. Defined.

Lemma tokens_join_spaces_example :
  tokens (join [32] [js "John"; js "30"]) = [js "John"; js "30"].
Proof.
  apply (tokens_join_spaces [js "John"; js "30"]).
  repeat constructor; discriminate.
Defined.

Lemma header_keys_well_formed_example :
  js "age" <> [] /\ no_ws (js "age") = true /\ ~ In LF (js "age").
Proof.
  apply (header_keys_well_formed toLowerCase_ascii (js "NAME AGE")).
  right. left. reflexivity.
Defined.

Lemma table_cells_are_tokens_example :
  no_ws (js "John") = true /\
  (js "John" = [] \/
   exists line,
     In line (tl (split_lines spec_example_text)) /\
     In (js "John") (tokens line)).
Proof.
  apply (table_cells_are_tokens toLowerCase_ascii spec_example_text
           spec_example_table
           [(js "name", js "John"); (js "age", js "30");
            (js "city", js "Austin")]).
  - reflexivity.
  - left. reflexivity.
  - left. reflexivity.
Defined.

Lemma table_keys_uniform_example :
  exists keys,
    NoDup keys /\
    forall row, In row spec_example_table ->
                Object_keys row = keys /\
                length (Object_values row) = length keys.
Proof.
  apply (table_keys_uniform toLowerCase_ascii spec_example_text).
  reflexivity.
Defined.

Lemma export_one_line_per_record_example :
  exists d,
    exportToCSV (Some spec_example_table) = Downloaded d /\
    length (split_on LF (content d)) = 3%nat.
Proof.
  destruct (export_one_line_per_record toLowerCase_ascii spec_example_text
              (hd [] spec_example_table) (tl spec_example_table) eq_refl)
    as (d & Hd & _ & Hlen).
  exists d. split; [exact Hd | exact Hlen].
Defined.

Lemma component_invariant_example :
  (isProcessing (mkState false [] (Some spec_example_table) 0) = true ->
   error (mkState false [] (Some spec_example_table) 0) = [] /\
   extractedData (mkState false [] (Some spec_example_table) 0) = None) /\
  (forall data,
      extractedData (mkState false [] (Some spec_example_table) 0)
      = Some data ->
      error (mkState false [] (Some spec_example_table) 0) = [] /\
      isProcessing (mkState false [] (Some spec_example_table) 0) = false).
Proof.
  apply (component_invariant toLowerCase_ascii toUpperCase_ascii).
  apply example_run_reachable.
Defined.

Lemma stored_table_is_final_example :
  mkState false [] (Some spec_example_table) 0
  = mkState false [] (Some spec_example_table) 0.
Proof.
  apply (stored_table_is_final toLowerCase_ascii toUpperCase_ascii
           (mkState false [] (Some spec_example_table) 0)
           (mkState false [] (Some spec_example_table) 0)
           spec_example_table ClickExport).
  - apply example_run_reachable.
  - reflexivity.
  - reflexivity.
Defined.

Lemma header_only_text_example :
  exists st,
    run toLowerCase_ascii toUpperCase_ascii
      [ChooseFile (Some png_file);
       RecognitionDone (Recognized (js "NAME AGE"))] initial_state
    = Some st /\
    st = processImage toLowerCase_ascii (js "NAME AGE")
           (processImage_start initial_state) /\
    reachable toLowerCase_ascii toUpperCase_ascii st /\
    extractedData st = Some [] /\
    render toUpperCase_ascii st = Throw TypeError /\
    forall e, dispatch toLowerCase_ascii toUpperCase_ascii e st = None.
Proof.
  apply (header_only_text_breaks_render toLowerCase_ascii toUpperCase_ascii
           png_file (js "NAME AGE") initial_state).
  - constructor.
  - reflexivity.
  - reflexivity.
  - reflexivity.
Defined.

Lemma rendered_table_rectangular_example :
  exists t,
    render toUpperCase_ascii
      (processImage toLowerCase_ascii spec_example_text initial_state)
    = Normal (mkView false None None (Some t)) /\
    length (body_rows t) = length spec_example_table /\
    Forall (fun cells => length cells = length (head_cells t)) (body_rows t).
Proof.
  apply (rendered_table_rectangular toLowerCase_ascii toUpperCase_ascii
           spec_example_text initial_state
           (hd [] spec_example_table) (tl spec_example_table)).
  reflexivity.
Defined.

Lemma shown_cells_are_exported_example :
  exists t d,
    render toUpperCase_ascii
      (processImage toLowerCase_ascii spec_example_text initial_state)
    = Normal (mkView false None None (Some t)) /\
    exportToCSV
      (extractedData
         (processImage toLowerCase_ascii spec_example_text initial_state))
    = Downloaded d /\
    head_cells t
    = map (display_header toUpperCase_ascii)
        (Object_keys (hd [] spec_example_table)) /\
    split_on LF (content d)
    = join [COMMA] (Object_keys (hd [] spec_example_table))
      :: map (fun cells => join [COMMA] (map QuoteJSONString cells))
           (body_rows t).
Proof.
  apply (shown_cells_are_exported toLowerCase_ascii toUpperCase_ascii
           spec_example_text initial_state
           (hd [] spec_example_table) (tl spec_example_table)).
  reflexivity.
Defined.

(** ** The keys of the stored table *)

Lemma process_rows_all_kept (h0 : jsstring) (hs : list jsstring)
    (line0 : jsstring) (rest : list jsstring) :
  h0 <> proto_key -> ~ In h0 hs ->
  Forall (fun line => truthy (trim line) = true) rest ->
  process_rows (h0 :: hs) (line0 :: rest) = map (build_row (h0 :: hs)) rest.
Proof.
  intros Hp Hin Hrest. unfold process_rows. cbn [skipn].
  rewrite (filter_all _ rest Hrest). apply filter_all.
  apply Forall_forall. intros row Hrow. apply in_map_iff in Hrow.
  destruct Hrow as (line & <- & Hline). apply build_row_retained; auto.
  rewrite Forall_forall in Hrest. auto.
Qed.

Lemma build_row_key_count (headers : list jsstring) (line : jsstring) :
  forallb not_proto headers = true ->
  length (Object_keys (build_row headers line))
  = length (first_occurrences headers).
Proof.
  intros Hok. rewrite (Permutation_length (Object_keys_Permutation _)).
  rewrite length_map, <- (length_map fst), build_row_keys.
  rewrite filter_all; [reflexivity|].
  apply Forall_forall. rewrite forallb_forall in Hok. exact Hok.
Qed.

Section TableKeys.

Variable toLowerCase : jsstring -> jsstring.
Hypothesis lower_empty : preserves_empty toLowerCase.

(** C6, as the code has it: for a text with at least two non-blank lines,
    the header sequence has as many keys as the first non-blank line has
    maximal runs of non-white-space code units; when none of them is
    [__proto__], every record of the stored table has as many keys as the
    sequence has distinct keys; and when moreover no key stands twice in the
    sequence, the stored table has a record for every non-blank line after
    the first and each record has as many keys as the first non-blank line
    has tokens. *)
Theorem table_key_count (text line0 line1 : jsstring)
    (others : list jsstring) :
  split_lines text = line0 :: line1 :: others ->
  exists headers data,
    headers_of toLowerCase (split_lines text) = Normal headers /\
    processText toLowerCase text = Normal data /\
    length headers = length (maximal_runs line0) /\
    (forallb not_proto headers = true ->
     (forall row, In row data ->
                  length (Object_keys row)
                  = length (first_occurrences headers)) /\
     (NoDup headers ->
      length data = S (length others) /\
      forall row, In row data ->
                  length (Object_keys row) = length (maximal_runs line0))).
Proof.
  intros Hlines. pose proof (split_lines_not_blank text) as Hblank.
  unfold processText. rewrite Hlines in *. cbn [headers_of].
  inversion Hblank as [|? ? H0 Hrest]; subst.
  set (headers := extract_headers toLowerCase line0).
  assert (length headers = length (maximal_runs line0)) as Hcount.
  { unfold headers.
    now rewrite extract_headers_tokens, length_map, tokens_maximal_runs. }
  exists headers, (process_rows headers (line0 :: line1 :: others)).
  split; [reflexivity|]. split; [reflexivity|]. split; [exact Hcount|].
  intros Hok.
  assert (forall row,
             In row (process_rows headers (line0 :: line1 :: others)) ->
             length (Object_keys row) = length (first_occurrences headers))
    as Hkeys.
  { intros row Hrow. apply process_rows_In in Hrow.
    destruct Hrow as (_ & line & ->). now apply build_row_key_count. }
  split; [exact Hkeys|]. intros Hnodup. split.
  - assert (headers <> []) as Hne
        by (unfold headers; now apply extract_headers_not_nil).
    destruct headers as [|h0 hs] eqn:Hh; [congruence|].
    rewrite process_rows_all_kept.
    + now rewrite length_map.
    + simpl in Hok. apply andb_true_iff in Hok. destruct Hok as [Hok _].
      unfold not_proto in Hok. now apply negb_true_iff, jsstring_eqb_neq in Hok.
    + now inversion Hnodup.
    + exact Hrest.
  - intros row Hrow. rewrite (Hkeys row Hrow).
    now rewrite first_occurrences_NoDup.
Qed.

End TableKeys.

(** C6: the first line has two tokens and the header sequence two keys, but
    the one record of the stored table has one key. *)
Lemma duplicate_key_counts_once :
  split_lines duplicate_key_row_text = [js "TOTAL total"; js "7 9"] /\
  length (maximal_runs (js "TOTAL total")) = 2%nat /\
  headers_of toLowerCase_ascii (split_lines duplicate_key_row_text)
  = Normal [js "total"; js "total"] /\
  processText toLowerCase_ascii duplicate_key_row_text
  = Normal [[(js "total", js "9")]] /\
  length (Object_keys [(js "total", js "9")]) = 1%nat.
Proof. repeat split; reflexivity. Qed.

Lemma table_key_count_example :
  exists headers data,
    headers_of toLowerCase_ascii (split_lines spec_example_text)
    = Normal headers /\
    processText toLowerCase_ascii spec_example_text = Normal data /\
    length headers = length (maximal_runs (js "NAME AGE CITY")) /\
    length data = 2%nat /\
    forall row, In row data ->
                length (Object_keys row)
                = length (maximal_runs (js "NAME AGE CITY")).
Proof.
  destruct (table_key_count toLowerCase_ascii
              toLowerCase_ascii_preserves_empty spec_example_text
              (js "NAME AGE CITY") (js "John 30 Austin")
              [js "Jane 25 Denver"] eq_refl)
    as (headers & data & H1 & H2 & H3 & H4).
  assert (headers = [js "name"; js "age"; js "city"]) as Hh
      by (cbv in H1; injection H1 as <-; reflexivity).
  exists headers, data. split; [exact H1|]. split; [exact H2|].
  split; [exact H3|]. subst headers.
  destruct (H4 eq_refl) as [_ H5]. apply H5.
  repeat constructor; simpl; intuition discriminate.
Defined.
